(** * City information and recipe service: the three request handlers

    A shallow embedding of [src/index.js]: the handlers
    [GET /cities/:cityId/infos], [POST /cities/:cityId/recipes] and
    [DELETE /cities/:cityId/recipes/:recipeId] over the in-memory store
    [recipesByCity] / [nextRecipeId].

    Conventions of the embedding.
    - A JavaScript string is a [string], one character per UTF-16 code unit,
      so that [.length] is [String.length].
    - JavaScript numbers are IEEE doubles.  Recipe identifiers and the
      counter [nextRecipeId] are integers obtained from 1 by increments, and
      are exact below 2^53; they are modelled as exact integers [Z].  Numbers
      inside upstream payloads are only copied by the handlers and are
      modelled by rationals.
    - An [async] handler is a tree of its suspension points ([await fetch])
      and of its synchronous accesses to the store.  A thrown exception is a
      node of that tree; [try_catch] is the [try { } catch { }] statement.
    - Each handler touches the store only after its last [await], in one
      synchronous stretch; a request is therefore served as one step on the
      store, with the answers the upstream gave to that request.
    - A reply is what the handler hands to the framework (status and
      payload, or an exception that leaves the handler); routing, body
      parsing and the serialization of the payload belong to the
      framework. *)

From Stdlib Require Import ZArith QArith String Ascii List Lia DecimalString.
From Stdlib Require DecimalN DecimalPos.
From stdpp Require Import base option list gmap strings.

Local Open Scope string_scope.
Local Open Scope Z_scope.
Local Open Scope list_scope.

(** ** JavaScript values *)

#[local] Set Warnings "-register-all".

(** The values the handlers manipulate: [undefined], and what [JSON.parse]
    produces.  An object is the list of its own properties in document
    order. *)
Inductive value : Type :=
| Undefined
| Null
| Bool (b : bool)
| Num (q : Q)
| Str (s : string)
| Arr (elems : list value)
| Obj (props : list (string * value)).

(** [!!v]: every value is truthy except [undefined], [null], [false], [0]
    and the empty string. *)
Definition truthy (v : value) : bool :=
  match v with
  | Undefined | Null => false
  | Bool b => b
  | Num q => negb (Qeq_bool q 0)
  | Str s => negb (String.eqb s "")
  | Arr _ | Obj _ => true
  end.

(** [typeof v === 'string'] *)
Definition is_string (v : value) : bool :=
  match v with Str _ => true | _ => false end.

(** [v === undefined || v === null] *)
Definition nullish (v : value) : bool :=
  match v with Undefined | Null => true | _ => false end.

(** [a || b] *)
Definition js_or (a b : value) : value := if truthy a then a else b.

(** [a ?? b] *)
Definition js_coalesce (a b : value) : value := if nullish a then b else a.

(** The own property [name] of an object; when a key is repeated in the
    document [JSON.parse] keeps the last occurrence. *)
Fixpoint own_property (name : string) (props : list (string * value)) : option value :=
  match props with
  | [] => None
  | (k, v) :: rest =>
      match own_property name rest with
      | Some w => Some w
      | None => if String.eqb k name then Some v else None
      end
  end.

(** The canonical property key of an array index: [0] is ["0"]. *)
Definition index_key (i : nat) : string := NilEmpty.string_of_uint (Nat.to_uint i).

(** A JavaScript completion: a value, or an exception being thrown. *)
Inductive completion (A : Type) : Type :=
| Normal (a : A)
| Thrown.
Arguments Normal {A} a.
Arguments Thrown {A}.

(** [v.name], for the property names the handlers read ([coordinates],
    [latitude], [longitude], [population], [knownFor], [content],
    [predictions], [minTemperature], [maxTemperature]): none of them is
    defined on a built-in prototype, so that only own properties of objects
    are found.  Reading a property of [undefined] or [null] throws a
    TypeError. *)
Definition get_member (v : value) (name : string) : completion value :=
  match v with
  | Undefined | Null => Thrown
  | Obj props => Normal (default Undefined (own_property name props))
  | Bool _ | Num _ | Str _ | Arr _ => Normal Undefined
  end.

(** [v[i]] for a literal index [i]. *)
Definition get_index (v : value) (i : nat) : completion value :=
  match v with
  | Undefined | Null => Thrown
  | Arr elems => Normal (default Undefined (elems !! i))
  | Str s => Normal (from_option (fun c => Str (String c EmptyString)) Undefined (String.get i s))
  | Obj props => Normal (default Undefined (own_property (index_key i) props))
  | Bool _ | Num _ => Normal Undefined
  end.

(** [v?.name]: [undefined] when [v] is [undefined] or [null]; never throws. *)
Definition get_member_opt (v : value) (name : string) : value :=
  match get_member v name with
  | Normal w => w
  | Thrown => Undefined
  end.

(** ** The in-memory store (lines 10-11) *)

(** [{ id: nextRecipeId++, content: content }] *)
Module Recipe.
Record t : Type := mk { id : Z; content : string }.
End Recipe.
Abbreviation Recipe := Recipe.t.

(** [recipesByCity] holds the own properties of the object literal [{}]
    (one array of recipes per city identifier); [nextRecipeId] is the
    counter. *)
Record store : Type := mkStore {
  recipesByCity : gmap string (list Recipe);
  nextRecipeId : Z
}.

(** [const recipesByCity = {}; let nextRecipeId = 1] *)
Definition initial_store : store :=
  {| recipesByCity := ∅; nextRecipeId := 1 |}.

(** [recipesByCity] is created by an object literal, so its prototype is
    [Object.prototype]: a key that is not an own property is looked up
    there.  These are the members of [Object.prototype]; each is a function,
    or for [__proto__] the prototype object itself. *)
Definition object_prototype_members : list string :=
  [ "constructor"; "__defineGetter__"; "__defineSetter__"; "hasOwnProperty";
    "__lookupGetter__"; "__lookupSetter__"; "isPrototypeOf";
    "propertyIsEnumerable"; "toString"; "valueOf"; "__proto__";
    "toLocaleString" ].

Definition inherited (key : string) : bool :=
  existsb (String.eqb key) object_prototype_members.

(** What [recipesByCity[cityId]] evaluates to. *)
Inductive slot : Type :=
| NoSlot                          (* undefined *)
| Recipes (l : list Recipe)       (* the city's array, the very one stored *)
| Inherited (key : string).       (* a member of Object.prototype *)

Definition lookup_city (st : store) (cityId : string) : slot :=
  match recipesByCity st !! cityId with
  | Some l => Recipes l
  | None => if inherited cityId then Inherited cityId else NoSlot
  end.

(** Arrays, functions and objects are truthy. *)
Definition slot_truthy (s : slot) : bool :=
  match s with NoSlot => false | Recipes _ | Inherited _ => true end.

(** ** The upstream city API *)

(** The two calls of lines 73/123/162 and 84; the API key is part of the
    process environment. *)
Inductive url : Type :=
| InsightsUrl (cityId : string)
| WeatherUrl (cityId : string).

(** A response: its [ok] flag and what [await res.json()] gives, [None] when
    the body is not a JSON document (the promise is rejected). *)
Record response : Type := mkResponse {
  ok : bool;
  json_body : option value
}.

(** [await fetch(url)] either throws (network failure) or yields a
    response. *)
Inductive fetch_outcome : Type :=
| Rejected
| Resolved (res : response).

(** What the upstream answers while one request is served. *)
Definition upstream : Type := url → fetch_outcome.

(** ** Handlers as interaction trees over the store and the upstream *)

Inductive async (A : Type) : Type :=
| Return (a : A)
| Throw
| Await (u : url) (k : fetch_outcome → async A)
| ReadStore (k : store → async A)
| WriteStore (st : store) (k : async A).
Arguments Return {A} a.
Arguments Throw {A}.
Arguments Await {A} u k.
Arguments ReadStore {A} k.
Arguments WriteStore {A} st k.

Fixpoint async_bind {A B : Type} (m : async A) (f : A → async B) : async B :=
  match m with
  | Return a => f a
  | Throw => Throw
  | Await u k => Await u (fun o => async_bind (k o) f)
  | ReadStore k => ReadStore (fun st => async_bind (k st) f)
  | WriteStore st k => WriteStore st (async_bind k f)
  end.

#[global] Instance async_ret : MRet async := @Return.
#[global] Instance async_mbind : MBind async := fun A B f m => async_bind m f.

(** [try { m } catch (error) { handler }]; the handlers never look at the
    caught error, they log it. *)
Fixpoint try_catch {A : Type} (m : async A) (handler : async A) : async A :=
  match m with
  | Return a => Return a
  | Throw => handler
  | Await u k => Await u (fun o => try_catch (k o) handler)
  | ReadStore k => ReadStore (fun st => try_catch (k st) handler)
  | WriteStore st k => WriteStore st (try_catch k handler)
  end.

(** Running a handler to completion against the upstream's answers.  The
    store is threaded through; what a handler wrote before throwing stays
    written. *)
Fixpoint run {A : Type} (up : upstream) (m : async A) (st : store) : completion A * store :=
  match m with
  | Return a => (Normal a, st)
  | Throw => (Thrown, st)
  | Await u k => run up (k (up u)) st
  | ReadStore k => run up (k st) st
  | WriteStore st' k => run up k st'
  end.

(** The first upstream call a handler makes, if it makes one before
    touching the store. *)
Definition first_call {A : Type} (m : async A) : option url :=
  match m with
  | Await u _ => Some u
  | _ => None
  end.

Definition lift {A : Type} (c : completion A) : async A :=
  match c with
  | Normal a => Return a
  | Thrown => Throw
  end.

(** [await fetch(url)] *)
Definition fetch (u : url) : async response :=
  Await u (fun o => match o with Rejected => Throw | Resolved res => Return res end).

(** [await res.json()] *)
Definition json (res : response) : async value :=
  match json_body res with
  | Some v => Return v
  | None => Throw
  end.

(** [nextRecipeId++]: the value before the increment (line 139). *)
Definition post_increment : async Z :=
  ReadStore (fun st =>
    WriteStore {| recipesByCity := recipesByCity st; nextRecipeId := nextRecipeId st + 1 |}
      (Return (nextRecipeId st))).

(** [recipesByCity[cityId]] *)
Definition read_slot (cityId : string) : async slot :=
  ReadStore (fun st => Return (lookup_city st cityId)).

(** [recipesByCity[cityId] = l], and every in-place update of the array
    stored under [cityId]. *)
Definition assign (cityId : string) (l : list Recipe) : async unit :=
  ReadStore (fun st =>
    WriteStore {| recipesByCity := <[cityId := l]> (recipesByCity st);
                  nextRecipeId := nextRecipeId st |}
      (Return tt)).

(** ** Replies *)

(** One entry of [weatherPredictions] (lines 89-98). *)
Module Forecast.
Record t : Type := mk { when : string; min : value; max : value }.
End Forecast.
Abbreviation Forecast := Forecast.t.

(** The object returned at lines 103-109. *)
Record city_info : Type := mkInfo {
  coordinates : list value;
  population : value;
  knownFor : list value;
  weatherPredictions : list Forecast;
  recipes : slot
}.

Inductive payload : Type :=
| ErrorBody (error : string)          (* { error: '...' } *)
| RecipeBody (r : Recipe)             (* the created recipe *)
| InfoBody (i : city_info)
| EmptyBody.                          (* send() *)

Record reply : Type := mkReply { code : Z; body : payload }.

(** [return reply.code(c).send(b)] *)
Definition send (c : Z) (b : payload) : async reply :=
  Return {| code := c; body := b |}.

(** ** Array and string built-ins used by the handlers *)

Fixpoint map_completion {A B : Type} (f : A → completion B) (l : list A) : completion (list B) :=
  match l with
  | [] => Normal []
  | x :: rest =>
      match f x with
      | Thrown => Thrown
      | Normal y =>
          match map_completion f rest with
          | Thrown => Thrown
          | Normal ys => Normal (y :: ys)
          end
      end
  end.

(** [v.map(f)]: [v] must be an array; on anything else [.map] is not a
    function (or [v] is [undefined]/[null]) and a TypeError is thrown. *)
Definition array_map (f : value → completion value) (v : value) : completion (list value) :=
  match v with
  | Arr elems => map_completion f elems
  | _ => Thrown
  end.

(** [l.findIndex(p)]: the first index whose element satisfies [p], or -1. *)
Fixpoint findIndex_from {A : Type} (p : A → bool) (l : list A) (i : Z) : Z :=
  match l with
  | [] => -1
  | x :: rest => if p x then i else findIndex_from p rest (i + 1)
  end.

Definition findIndex {A : Type} (p : A → bool) (l : list A) : Z :=
  findIndex_from p l 0.

(** [l.splice(index, 1)] for an index found by [findIndex]: the array
    without the element at [index]. *)
Definition splice {A : Type} (l : list A) (index : Z) : list A :=
  take (Z.to_nat index) l ++ drop (S (Z.to_nat index)) l.

(** [s.length] *)
Definition js_length (s : string) : Z := Z.of_nat (String.length s).

(** White space skipped by [parseInt], among the code units below 256. *)
Definition is_white_space (c : ascii) : bool :=
  let n := nat_of_ascii c in
  existsb (Nat.eqb n) [9; 10; 11; 12; 13; 32; 160]%nat.

Fixpoint trim_start (s : string) : string :=
  match s with
  | String c rest => if is_white_space c then trim_start rest else s
  | EmptyString => s
  end.

(** The value of a digit in the given radix (10 or 16). *)
Definition digit_value (radix : Z) (c : ascii) : option Z :=
  let n := Z.of_nat (nat_of_ascii c) in
  let d := if ((48 <=? n) && (n <=? 57))%Z then Some (n - 48)
           else if ((97 <=? n) && (n <=? 102))%Z then Some (n - 87)
           else if ((65 <=? n) && (n <=? 70))%Z then Some (n - 55)
           else None in
  match d with
  | Some k => if (k <? radix)%Z then Some k else None
  | None => None
  end.

(** The longest prefix of digits, read as an integer; [None] when there is
    no digit at all. *)
Fixpoint parse_digits (radix : Z) (s : string) (acc : option Z) : option Z :=
  match s with
  | String c rest =>
      match digit_value radix c with
      | Some d => parse_digits radix rest (Some (radix * default 0 acc + d))
      | None => acc
      end
  | EmptyString => acc
  end.

(** [parseInt(s)] without a radix; [None] is [NaN]. *)
Definition parseInt (s : string) : option Z :=
  let s := trim_start s in
  let '(sign, s) :=
    match s with
    | String "-"%char rest => (-1, rest)
    | String "+"%char rest => (1, rest)
    | _ => (1, s)
    end in
  let '(radix, s) :=
    match s with
    | String "0"%char (String "x"%char rest)
    | String "0"%char (String "X"%char rest) => (16, rest)
    | _ => (10, s)
    end in
  match parse_digits radix s None with
  | Some n => Some (sign * n)
  | None => None
  end.

(** [r.id === n] where [n] is the result of [parseInt]: [NaN] is equal to
    nothing. *)
Definition strict_equal (id : Z) (n : option Z) : bool :=
  match n with
  | Some k => (id =? k)%Z
  | None => false
  end.

(** ** The handlers *)

Definition city_not_found : async reply := send 404 (ErrorBody "City not found").
Definition internal_server_error : async reply := send 500 (ErrorBody "Internal Server Error").

(** [predictions[i]?.name ?? 0] (lines 91-97) *)
Definition temperature (predictions : value) (i : nat) (name : string) : async value :=
  p ← lift (get_index predictions i);
  mret (js_coalesce (get_member_opt p name) (Num 0)).

(** Lines 79-82: what is read from the insight payload. *)
Definition read_city (cityData : value) : async (list value * value * list value) :=
  all ← lift (get_member cityData "coordinates");
  coord ← lift (get_index all 0);
  latitude ← lift (get_member coord "latitude");
  longitude ← lift (get_member coord "longitude");
  population ← lift (get_member cityData "population");
  facts ← lift (get_member cityData "knownFor");
  knownFor ← lift (array_map (fun k => get_member k "content") facts);
  mret ([latitude; longitude], population, knownFor).

(** Lines 86-99: the forecast built from the weather payload. *)
Definition read_weather (weatherData : value) : async (list Forecast) :=
  first ← lift (get_index weatherData 0);
  let predictions := js_or (get_member_opt first "predictions") (Arr []) in
  today_min ← temperature predictions 0 "minTemperature";
  today_max ← temperature predictions 0 "maxTemperature";
  tomorrow_min ← temperature predictions 1 "minTemperature";
  tomorrow_max ← temperature predictions 1 "maxTemperature";
  mret [ Forecast.mk "today" today_min today_max;
         Forecast.mk "tomorrow" tomorrow_min tomorrow_max ].

(** [GET /cities/:cityId/infos] (lines 68-114).  The object returned at
    line 103 is sent by the framework with status 200. *)
Definition get_infos (cityId : string) : async reply :=
  try_catch
    (cityRes ← fetch (InsightsUrl cityId);
     if negb (ok cityRes) then city_not_found else
     cityData ← json cityRes;
     '(coordinates, population, knownFor) ← read_city cityData;
     weatherRes ← fetch (WeatherUrl cityId);
     weatherData ← json weatherRes;
     weatherPredictions ← read_weather weatherData;
     found ← read_slot cityId;
     let recipes := if slot_truthy found then found else Recipes [] in
     send 200 (InfoBody (mkInfo coordinates population knownFor weatherPredictions recipes)))
    internal_server_error.

(** [recipesByCity[cityId].push(newRecipe)] (line 147): the array stored
    under [cityId] grows in place; a member of [Object.prototype] has no
    [push]. *)
Definition push (cityId : string) (newRecipe : Recipe) : async unit :=
  target ← read_slot cityId;
  match target with
  | Recipes l => assign cityId (l ++ [newRecipe])
  | Inherited _ | NoSlot => Throw
  end.

(** [POST /cities/:cityId/recipes] (lines 117-154).  [request.body] is
    destructured at line 119, before the [try] statement. *)
Definition post_recipe (cityId : string) (request_body : value) : async reply :=
  content ← lift (get_member request_body "content");
  try_catch
    (cityRes ← fetch (InsightsUrl cityId);
     if negb (ok cityRes) then city_not_found else
     if negb (truthy content) || negb (is_string content)
     then send 400 (ErrorBody "Content is required") else
     match content with
     | Str text =>
         if (js_length text <? 10)%Z
         then send 400 (ErrorBody "Content too short (min 10 characters)") else
         if (2000 <? js_length text)%Z
         then send 400 (ErrorBody "Content too long (max 2000 characters)") else
         id ← post_increment;
         let newRecipe := Recipe.mk id text in
         found ← read_slot cityId;
         (if negb (slot_truthy found) then assign cityId [] else mret tt);;
         push cityId newRecipe;;
         send 201 (RecipeBody newRecipe)
     | _ => Throw (* not reached: [content] is a string here *)
     end)
    internal_server_error.

(** [DELETE /cities/:cityId/recipes/:recipeId] (lines 157-183). *)
Definition delete_recipe (cityId recipeId : string) : async reply :=
  try_catch
    (cityRes ← fetch (InsightsUrl cityId);
     if negb (ok cityRes) then city_not_found else
     found ← read_slot cityId;
     if negb (slot_truthy found)
     then send 404 (ErrorBody "No recipes for this city") else
     match found with
     | Recipes l =>
         let index := findIndex (fun r => strict_equal (Recipe.id r) (parseInt recipeId)) l in
         if (index =? -1)%Z then send 404 (ErrorBody "Recipe not found") else
         assign cityId (splice l index);;
         send 204 EmptyBody
     | Inherited _ | NoSlot => Throw (* [recipes.findIndex] is not a function *)
     end)
    internal_server_error.

(** ** Serving requests *)

Inductive request : Type :=
| GetInfos (cityId : string)
| PostRecipe (cityId : string) (request_body : value)
| DeleteRecipe (cityId recipeId : string).

Definition city_of (r : request) : string :=
  match r with
  | GetInfos c | PostRecipe c _ | DeleteRecipe c _ => c
  end.

Definition handler (r : request) : async reply :=
  match r with
  | GetInfos c => get_infos c
  | PostRecipe c b => post_recipe c b
  | DeleteRecipe c i => delete_recipe c i
  end.

(** One request served against the upstream's answers: the reply, or
    [Thrown] when the exception leaves the handler and the framework answers
    with its own error reply; and the store afterwards. *)
Definition serve (up : upstream) (r : request) (st : store) : completion reply * store :=
  run up (handler r) st.

(** A sequence of requests, each with the answers the upstream gives while
    it is served; the replies in order and the final store. *)
Fixpoint serve_all (reqs : list (upstream * request)) (st : store)
  : list (completion reply) * store :=
  match reqs with
  | [] => ([], st)
  | (up, r) :: rest =>
      let '(out, st1) := serve up r st in
      let '(outs, st2) := serve_all rest st1 in
      (out :: outs, st2)
  end.

(** ** Notions used in the statements *)

(** A reply produced by the handler itself. *)
Definition replied (c : Z) (b : payload) : completion reply := Normal (mkReply c b).

(** The store after a recipe with [text] was appended to the array of
    [cityId], [l] being that array before (empty when it was just
    created). *)
Definition created (st : store) (cityId : string) (l : list Recipe) (text : string) : store :=
  {| recipesByCity := <[cityId := (l ++ [Recipe.mk (nextRecipeId st) text])%list]> (recipesByCity st);
     nextRecipeId := nextRecipeId st + 1 |}.

(** The store after the array of [cityId] was replaced by [l]. *)
Definition updated (st : store) (cityId : string) (l : list Recipe) : store :=
  {| recipesByCity := <[cityId := l]> (recipesByCity st);
     nextRecipeId := nextRecipeId st |}.

(** A computation that neither suspends nor touches the store, and its
    result. *)
Definition pure {A : Type} (m : async A) : Prop :=
  match m with
  | Return _ | Throw => True
  | _ => False
  end.

Definition result_of {A : Type} (m : async A) : completion A :=
  match m with
  | Return a => Normal a
  | _ => Thrown
  end.

(** A computation without suspension point, and one whose accesses to the
    store all come after its last suspension point. *)
Fixpoint synchronous {A : Type} (m : async A) : Prop :=
  match m with
  | Return _ | Throw => True
  | Await _ _ => False
  | ReadStore k => ∀ st, synchronous (k st)
  | WriteStore _ k => synchronous k
  end.


(** What serving one request can do to the store: nothing, consume an
    identifier, append a recipe to a new or an existing array, or remove
    one element of an array. *)
Inductive effect (st : store) : store → Prop :=
| Untouched : effect st st
| IdentifierSkipped :
    effect st {| recipesByCity := recipesByCity st; nextRecipeId := nextRecipeId st + 1 |}
| FirstRecipe c text :
    recipesByCity st !! c = None → inherited c = false →
    effect st (created st c [] text)
| NextRecipe c l text :
    recipesByCity st !! c = Some l → effect st (created st c l text)
| RecipeRemoved c l i :
    recipesByCity st !! c = Some l → effect st (updated st c (delete i l)).

(** The states the service can be in: those reached from the initial store
    by serving requests, whatever the upstream answers. *)
Definition reachable (st : store) : Prop :=
  ∃ reqs, (serve_all reqs initial_store).2 = st.

(** Identifiers stored are below the counter, distinct inside one array and
    distinct across arrays. *)
Record consistent (st : store) : Prop := {
  ids_below : ∀ c l r, recipesByCity st !! c = Some l → r ∈ l →
                       Recipe.id r < nextRecipeId st;
  ids_distinct : ∀ c l, recipesByCity st !! c = Some l → NoDup (Recipe.id <$> l);
  ids_apart : ∀ c1 c2 l1 l2 r1 r2, c1 ≠ c2 →
                recipesByCity st !! c1 = Some l1 → recipesByCity st !! c2 = Some l2 →
                r1 ∈ l1 → r2 ∈ l2 → Recipe.id r1 ≠ Recipe.id r2
}.

(** The temperature [name] of an upstream prediction, in the words of the
    specification: the field of that prediction, 0 when the prediction or
    the field is missing. *)
Definition reading (prediction : option value) (name : string) : value :=
  match prediction with
  | Some (Obj fields) =>
      match own_property name fields with
      | Some v => if nullish v then Num 0 else v
      | None => Num 0
      end
  | _ => Num 0
  end.

(** ** Sample requests and upstream answers *)

Definition sample_insights : value :=
  Obj [ ("coordinates", Arr [Obj [("latitude", Num (4885 # 100)); ("longitude", Num (235 # 100))]]);
        ("population", Num 2148000);
        ("knownFor", Arr [Obj [("content", Str "Cuisine")]]) ].

Definition sample_weather : value :=
  Arr [Obj [("predictions",
             Arr [ Obj [("minTemperature", Num 12); ("maxTemperature", Num 21)];
                   Obj [("minTemperature", Num 9)] ])]].

(** An upstream that knows every city. *)
Definition sample_upstream : upstream := fun u =>
  match u with
  | InsightsUrl _ => Resolved (mkResponse true (Some sample_insights))
  | WeatherUrl _ => Resolved (mkResponse true (Some sample_weather))
  end.

(** An upstream that knows no city. *)
Definition unknown_city_upstream : upstream := fun u =>
  Resolved (mkResponse false (Some (Obj [("error", Str "Not found")]))).

(** An upstream whose insight payload has an empty list of coordinates. *)
Definition no_coordinates_upstream : upstream := fun u =>
  match u with
  | InsightsUrl _ =>
      Resolved (mkResponse true
        (Some (Obj [("coordinates", Arr []); ("population", Num 1); ("knownFor", Arr [])])))
  | WeatherUrl _ => Resolved (mkResponse true (Some (Arr [])))
  end.

(** An upstream that has no forecast. *)
Definition no_forecast_upstream : upstream := fun u =>
  match u with
  | InsightsUrl _ => Resolved (mkResponse true (Some sample_insights))
  | WeatherUrl _ => Resolved (mkResponse true (Some (Arr [])))
  end.

Definition sample_body (text : string) : value := Obj [("content", Str text)].

(** The scenario of the specification: two recipes for city 42. *)
Definition two_recipes : list (upstream * request) :=
  [ (sample_upstream, PostRecipe "42" (sample_body "Bring flour and sugar"));
    (sample_upstream, PostRecipe "42" (sample_body "Bring butter and eggs")) ].

(** A text of [n] characters. *)
Fixpoint text_of_length (n : nat) : string :=
  match n with
  | O => EmptyString
  | S k => String "a" (text_of_length k)
  end.

(** ** Further notions used in the statements *)

(** What validation has let into the store: identifiers from 1 on, and
    contents of 10 to 2000 code units. *)
Definition valid_store (st : store) : Prop :=
  1 ≤ nextRecipeId st ∧
  ∀ c l r, recipesByCity st !! c = Some l → r ∈ l →
           1 ≤ Recipe.id r ∧ 10 ≤ js_length (Recipe.content r) ≤ 2000.

(** An upstream whose weather endpoint answers with a failure status and a
    JSON error body. *)
Definition failing_weather_upstream : upstream := fun u =>
  match u with
  | InsightsUrl _ => Resolved (mkResponse true (Some sample_insights))
  | WeatherUrl _ => Resolved (mkResponse false (Some sample_weather))
  end.

(** The decimal numeral of a natural number, as it is written in a URL. *)
Definition decimal (n : Z) : string :=
  NilEmpty.string_of_uint (N.to_uint (Z.to_N n)).

(** What may follow a decimal numeral without changing what [parseInt]
    reads: nothing, or a text that starts with a character that is neither a
    decimal digit nor the [x] of a hexadecimal prefix. *)
Definition ends_numeral (suffix : string) : Prop :=
  match suffix with
  | EmptyString => True
  | String c _ => digit_value 10 c = None ∧ c ≠ "x"%char ∧ c ≠ "X"%char
  end.

(** ** Start-up (lines 209-221) *)






(** * Properties *)

(** ** Running binds, [try] statements and the primitives *)

Lemma run_bind {A B : Type} (up : upstream) (m : async A) (f : A → async B) (st : store) :
  run up (m ≫= f) st =
  match run up m st with
  | (Normal a, st') => run up (f a) st'
  | (Thrown, st') => (Thrown, st')
  end.
Proof.
  revert st. induction m as [a | | u k IH | k IH | w k IH]; intros st; cbn; auto.
  - apply IH.
  - apply IH.
Qed.

Lemma run_try_catch {A : Type} (up : upstream) (m handler : async A) (st : store) :
  run up (try_catch m handler) st =
  match run up m st with
  | (Normal a, st') => (Normal a, st')
  | (Thrown, st') => run up handler st'
  end.
Proof.
  revert st. induction m as [a | | u k IH | k IH | w k IH]; intros st; cbn; auto.
Qed.

Lemma run_lift {A : Type} (up : upstream) (c : completion A) (st : store) :
  run up (lift c) st = (c, st).
Proof. destruct c; reflexivity. Qed.

Lemma run_ret {A : Type} (up : upstream) (a : A) (st : store) :
  run up (mret a) st = (Normal a, st).
Proof. reflexivity. Qed.

Lemma run_fetch (up : upstream) (u : url) (st : store) :
  run up (fetch u) st =
  match up u with
  | Rejected => (Thrown, st)
  | Resolved res => (Normal res, st)
  end.
Proof. cbn. destruct (up u); reflexivity. Qed.

Lemma run_json (up : upstream) (res : response) (st : store) :
  run up (json res) st =
  match json_body res with
  | Some v => (Normal v, st)
  | None => (Thrown, st)
  end.
Proof. unfold json. destruct (json_body res); reflexivity. Qed.

Lemma run_send (up : upstream) (c : Z) (b : payload) (st : store) :
  run up (send c b) st = (Normal (mkReply c b), st).
Proof. reflexivity. Qed.

Lemma run_read_slot (up : upstream) (cityId : string) (st : store) :
  run up (read_slot cityId) st = (Normal (lookup_city st cityId), st).
Proof. reflexivity. Qed.

Lemma run_assign (up : upstream) (cityId : string) (l : list Recipe) (st : store) :
  run up (assign cityId l) st =
  (Normal tt, {| recipesByCity := <[cityId := l]> (recipesByCity st);
                 nextRecipeId := nextRecipeId st |}).
Proof. reflexivity. Qed.

Lemma run_post_increment (up : upstream) (st : store) :
  run up post_increment st =
  (Normal (nextRecipeId st),
   {| recipesByCity := recipesByCity st; nextRecipeId := nextRecipeId st + 1 |}).
Proof. reflexivity. Qed.

Create Rewrite HintDb run.
#[local] Hint Rewrite @run_bind @run_try_catch @run_lift @run_ret run_fetch run_json
  run_send run_read_slot run_assign run_post_increment : run.

Ltac run_steps := autorewrite with run; cbn [fst snd].

(** What the synchronous part of a create does once validation has passed
    (lines 138-149). *)
Lemma run_create (up : upstream) (cityId text : string) (st : store) :
  run up
    (id ← post_increment;
     let newRecipe := Recipe.mk id text in
     found ← read_slot cityId;
     (if negb (slot_truthy found) then assign cityId [] else mret tt);;
     push cityId newRecipe;;
     send 201 (RecipeBody newRecipe)) st =
  match lookup_city st cityId with
  | NoSlot =>
      (Normal (mkReply 201 (RecipeBody (Recipe.mk (nextRecipeId st) text))),
       created st cityId [] text)
  | Recipes l =>
      (Normal (mkReply 201 (RecipeBody (Recipe.mk (nextRecipeId st) text))),
       created st cityId l text)
  | Inherited _ =>
      (Thrown, {| recipesByCity := recipesByCity st; nextRecipeId := nextRecipeId st + 1 |})
  end.
Proof.
  run_steps. unfold push. unfold lookup_city at 1 2. cbn [recipesByCity nextRecipeId].
  destruct (recipesByCity st !! cityId) as [l|] eqn:Hl.
  - cbn [slot_truthy negb]. run_steps. unfold lookup_city. cbn [recipesByCity]. rewrite Hl.
    run_steps. reflexivity.
  - destruct (inherited cityId) eqn:Hi; cbn [slot_truthy negb]; run_steps.
    + unfold lookup_city; cbn [recipesByCity]. rewrite Hl, Hi. reflexivity.
    + unfold lookup_city; cbn [recipesByCity]. rewrite lookup_insert_eq. run_steps.
      cbn [recipesByCity nextRecipeId]. unfold created.
      rewrite insert_insert_eq. reflexivity.
Qed.

(** ** Computations that neither suspend nor touch the store *)

Lemma pure_run {A : Type} (up : upstream) (m : async A) (st : store) :
  pure m → run up m st = (result_of m, st).
Proof. destruct m; cbn; intros H; try contradiction; reflexivity. Qed.

Lemma pure_bind {A B : Type} (m : async A) (f : A → async B) :
  pure m → (∀ a, pure (f a)) → pure (m ≫= f).
Proof. destruct m; cbn; intros H Hf; try contradiction; auto. Qed.

Lemma pure_lift {A : Type} (c : completion A) : pure (lift c).
Proof. destruct c; exact I. Qed.

Lemma pure_ret {A : Type} (a : A) : pure (mret a : async A).
Proof. exact I. Qed.

Lemma read_city_pure (cityData : value) : pure (read_city cityData).
Proof.
  unfold read_city.
  repeat (apply pure_bind; [apply pure_lift | intros ?]). apply pure_ret.
Qed.

Lemma temperature_pure (predictions : value) (i : nat) (name : string) :
  pure (temperature predictions i name).
Proof. unfold temperature. apply pure_bind; [apply pure_lift | intros ?; apply pure_ret]. Qed.

Lemma read_weather_pure (weatherData : value) : pure (read_weather weatherData).
Proof.
  unfold read_weather.
  apply pure_bind; [apply pure_lift | intros ?].
  repeat (apply pure_bind; [apply temperature_pure | intros ?]). apply pure_ret.
Qed.

(** ** The store is touched after the last [await] only *)



Lemma pure_synchronous {A : Type} (m : async A) : pure m → synchronous m.
Proof. by destruct m. Qed.







(** ** The handlers, branch by branch *)


Lemma serve_get_infos (up : upstream) (cityId : string) (st : store) :
  serve up (GetInfos cityId) st =
  (match up (InsightsUrl cityId) with
   | Rejected => replied 500 (ErrorBody "Internal Server Error")
   | Resolved cityRes =>
       if negb (ok cityRes) then replied 404 (ErrorBody "City not found") else
       match json_body cityRes with
       | None => replied 500 (ErrorBody "Internal Server Error")
       | Some cityData =>
           match result_of (read_city cityData), up (WeatherUrl cityId) with
           | Normal (coordinates, population, knownFor), Resolved weatherRes =>
               match json_body weatherRes with
               | None => replied 500 (ErrorBody "Internal Server Error")
               | Some weatherData =>
                   match result_of (read_weather weatherData) with
                   | Normal weatherPredictions =>
                       replied 200 (InfoBody
                         (mkInfo coordinates population knownFor weatherPredictions
                            (if slot_truthy (lookup_city st cityId)
                             then lookup_city st cityId else Recipes [])))
                   | Thrown => replied 500 (ErrorBody "Internal Server Error")
                   end
               end
           | _, _ => replied 500 (ErrorBody "Internal Server Error")
           end
       end
   end, st).
Proof.
  unfold serve, handler, get_infos, city_not_found, internal_server_error, replied.
  rewrite run_try_catch, run_bind, run_fetch.
  destruct (up (InsightsUrl cityId)) as [|cityRes]; [reflexivity|].
  destruct (ok cityRes); cbn [negb]; [|reflexivity].
  rewrite run_bind, run_json.
  destruct (json_body cityRes) as [cityData|]; [|reflexivity].
  rewrite run_bind, (pure_run _ _ _ (read_city_pure cityData)).
  destruct (result_of (read_city cityData)) as [[[coordinates population] knownFor]|];
    [|reflexivity].
  rewrite run_bind, run_fetch.
  destruct (up (WeatherUrl cityId)) as [|weatherRes]; [reflexivity|].
  rewrite run_bind, run_json.
  destruct (json_body weatherRes) as [weatherData|]; [|reflexivity].
  rewrite run_bind, (pure_run _ _ _ (read_weather_pure weatherData)).
  destruct (result_of (read_weather weatherData)) as [weatherPredictions|]; [|reflexivity].
  run_steps. reflexivity.
Qed.

Lemma serve_post_recipe (up : upstream) (cityId : string) (request_body : value) (st : store) :
  serve up (PostRecipe cityId request_body) st =
  match get_member request_body "content" with
  | Thrown => (Thrown, st)
  | Normal content =>
      match up (InsightsUrl cityId) with
      | Rejected => (replied 500 (ErrorBody "Internal Server Error"), st)
      | Resolved cityRes =>
          if negb (ok cityRes) then (replied 404 (ErrorBody "City not found"), st) else
          if negb (truthy content) || negb (is_string content)
          then (replied 400 (ErrorBody "Content is required"), st) else
          match content with
          | Str text =>
              if (js_length text <? 10)%Z
              then (replied 400 (ErrorBody "Content too short (min 10 characters)"), st) else
              if (2000 <? js_length text)%Z
              then (replied 400 (ErrorBody "Content too long (max 2000 characters)"), st) else
              match lookup_city st cityId with
              | NoSlot =>
                  (replied 201 (RecipeBody (Recipe.mk (nextRecipeId st) text)),
                   created st cityId [] text)
              | Recipes l =>
                  (replied 201 (RecipeBody (Recipe.mk (nextRecipeId st) text)),
                   created st cityId l text)
              | Inherited _ =>
                  (replied 500 (ErrorBody "Internal Server Error"),
                   {| recipesByCity := recipesByCity st;
                      nextRecipeId := nextRecipeId st + 1 |})
              end
          | _ => (replied 500 (ErrorBody "Internal Server Error"), st)
          end
      end
  end.
Proof.
  unfold serve, handler, post_recipe, city_not_found, internal_server_error, replied.
  rewrite run_bind, run_lift.
  destruct (get_member request_body "content") as [content|]; [|reflexivity].
  rewrite run_try_catch, run_bind, run_fetch.
  destruct (up (InsightsUrl cityId)) as [|cityRes]; [reflexivity|].
  destruct (ok cityRes); cbn [negb]; [|reflexivity].
  destruct (negb (truthy content) || negb (is_string content)); [reflexivity|].
  destruct content as [| | flag | q | text | elems | props]; try reflexivity.
  destruct (js_length text <? 10)%Z; [reflexivity|].
  destruct (2000 <? js_length text)%Z; [reflexivity|].
  rewrite run_create.
  destruct (lookup_city st cityId); reflexivity.
Qed.

Lemma serve_delete_recipe (up : upstream) (cityId recipeId : string) (st : store) :
  serve up (DeleteRecipe cityId recipeId) st =
  match up (InsightsUrl cityId) with
  | Rejected => (replied 500 (ErrorBody "Internal Server Error"), st)
  | Resolved cityRes =>
      if negb (ok cityRes) then (replied 404 (ErrorBody "City not found"), st) else
      match lookup_city st cityId with
      | NoSlot => (replied 404 (ErrorBody "No recipes for this city"), st)
      | Recipes l =>
          let index := findIndex (fun r => strict_equal (Recipe.id r) (parseInt recipeId)) l in
          if (index =? -1)%Z then (replied 404 (ErrorBody "Recipe not found"), st) else
          (replied 204 EmptyBody, updated st cityId (splice l index))
      | Inherited _ => (replied 500 (ErrorBody "Internal Server Error"), st)
      end
  end.
Proof.
  unfold serve, handler, delete_recipe, city_not_found, internal_server_error, replied.
  rewrite run_try_catch, run_bind, run_fetch.
  destruct (up (InsightsUrl cityId)) as [|cityRes]; [reflexivity|].
  destruct (ok cityRes); cbn [negb]; [|reflexivity].
  rewrite run_bind, run_read_slot.
  destruct (lookup_city st cityId) as [|l|key]; cbn [slot_truthy negb]; try reflexivity.
  cbv zeta.
  destruct (findIndex _ l =? -1)%Z; [reflexivity|].
  run_steps. reflexivity.
Qed.

(** ** [findIndex] and [splice] *)

Lemma findIndex_from_found {A : Type} (p : A → bool) (before : list A) (x : A) (after : list A) (i : Z) :
  Forall (fun y => p y = false) before → p x = true →
  findIndex_from p (before ++ x :: after) i = i + Z.of_nat (length before).
Proof.
  intros Hbefore Hx. revert i.
  induction Hbefore as [|y before Hy _ IH]; intros i; cbn [app findIndex_from length].
  - rewrite Hx. lia.
  - rewrite Hy, IH. lia.
Qed.

Lemma findIndex_from_none {A : Type} (p : A → bool) (l : list A) (i : Z) :
  Forall (fun y => p y = false) l → findIndex_from p l i = -1.
Proof.
  intros Hl. revert i. induction Hl as [|y l Hy _ IH]; intros i; cbn; [reflexivity|].
  rewrite Hy. apply IH.
Qed.

(** Either no element satisfies [p], or the list splits at the first one
    that does. *)
Lemma first_match {A : Type} (p : A → bool) (l : list A) :
  Forall (fun y => p y = false) l ∨
  ∃ before x after, l = before ++ x :: after ∧
                    Forall (fun y => p y = false) before ∧ p x = true.
Proof.
  induction l as [|y l IH]; [left; constructor|].
  destruct (p y) eqn:Hy.
  - right. exists [], y, l. repeat split; [constructor | assumption].
  - destruct IH as [Hnone | (before & x & after & -> & Hbefore & Hx)].
    + left. constructor; assumption.
    + right. exists (y :: before), x, after. repeat split; [constructor|]; assumption.
Qed.

Lemma splice_middle {A : Type} (before : list A) (x : A) (after : list A) :
  splice (before ++ x :: after) (Z.of_nat (length before)) = before ++ after.
Proof.
  unfold splice. rewrite Nat2Z.id, <- delete_take_drop.
  induction before as [|y before IH]; [reflexivity|].
  cbn [length app]. change (y :: delete (length before) (before ++ x :: after) = y :: (before ++ after)).
  by rewrite IH.
Qed.

Lemma splice_delete {A : Type} (l : list A) (index : Z) :
  splice l index = delete (Z.to_nat index) l.
Proof. unfold splice. by rewrite delete_take_drop. Qed.

(** ** What serving one request does to the store *)

Lemma lookup_city_recipes (st : store) (cityId : string) (l : list Recipe) :
  lookup_city st cityId = Recipes l ↔ recipesByCity st !! cityId = Some l.
Proof.
  unfold lookup_city. destruct (recipesByCity st !! cityId) as [k|].
  - split; congruence.
  - destruct (inherited cityId); split; discriminate.
Qed.

Lemma lookup_city_absent (st : store) (cityId : string) :
  lookup_city st cityId = NoSlot ↔
  recipesByCity st !! cityId = None ∧ inherited cityId = false.
Proof.
  unfold lookup_city. destruct (recipesByCity st !! cityId) as [k|].
  - split; [discriminate | intros [? _]; discriminate].
  - destruct (inherited cityId); split; try discriminate; auto.
    intros [_ ?]; discriminate.
Qed.

Lemma serve_effect (up : upstream) (r : request) (st : store) :
  effect st (serve up r st).2.
Proof.
  destruct r as [c | c b | c i].
  - rewrite serve_get_infos. constructor.
  - rewrite serve_post_recipe.
    destruct (get_member b "content") as [content|]; [|constructor].
    destruct (up (InsightsUrl c)) as [|res]; [constructor|].
    destruct (negb (ok res)); [constructor|].
    destruct (negb (truthy content) || negb (is_string content)); [constructor|].
    destruct content; try constructor.
    destruct (js_length s <? 10)%Z; [constructor|].
    destruct (2000 <? js_length s)%Z; [constructor|].
    destruct (lookup_city st c) as [|l|key] eqn:Hc; cbn [snd].
    + apply lookup_city_absent in Hc as [Hc Hplain]. by constructor.
    + apply lookup_city_recipes in Hc. by constructor.
    + constructor.
  - rewrite serve_delete_recipe.
    destruct (up (InsightsUrl c)) as [|res]; [constructor|].
    destruct (negb (ok res)); [constructor|].
    destruct (lookup_city st c) as [|l|key] eqn:Hc; try constructor.
    cbv zeta. destruct (_ =? -1)%Z; [constructor|]. cbn [snd].
    rewrite splice_delete. apply lookup_city_recipes in Hc. by constructor.
Qed.

(** ** The identifiers in the store *)

Lemma consistent_initial : consistent initial_store.
Proof.
  split; cbn; intros *.
  - by rewrite lookup_empty.
  - by rewrite lookup_empty.
  - intros _. by rewrite lookup_empty.
Qed.

Lemma consistent_created (st : store) (c : string) (l : list Recipe) (text : string) :
  consistent st →
  (recipesByCity st !! c = Some l ∨ recipesByCity st !! c = None ∧ l = []) →
  consistent (created st c l text).
Proof.
  intros [Hbelow Hdistinct Hapart] Hl.
  assert (Hold : ∀ r, r ∈ l → Recipe.id r < nextRecipeId st).
  { intros r Hr. destruct Hl as [Hl | [_ ->]]; [eauto | by apply elem_of_nil in Hr]. }
  assert (Hnew : ∀ r, r ∈ l ++ [Recipe.mk (nextRecipeId st) text] →
                      r ∈ l ∨ r = Recipe.mk (nextRecipeId st) text).
  { intros r [?|?%list_elem_of_singleton]%elem_of_app; auto. }
  split; unfold created; cbn [recipesByCity nextRecipeId].
  - intros c' l' r Hc' Hr. destruct (decide (c = c')) as [<-|Hne].
    + rewrite lookup_insert_eq in Hc'. injection Hc' as <-.
      destruct (Hnew r Hr) as [Hin| ->]; [specialize (Hold r Hin); lia | cbn; lia].
    + rewrite lookup_insert_ne in Hc' by done. specialize (Hbelow c' l' r Hc' Hr). lia.
  - intros c' l' Hc'. destruct (decide (c = c')) as [<-|Hne].
    + rewrite lookup_insert_eq in Hc'. injection Hc' as <-.
      rewrite fmap_app. apply NoDup_app. repeat split.
      * destruct Hl as [Hl | [_ ->]]; [eauto | constructor].
      * intros n [r [-> Hr]]%list_elem_of_fmap [Heq|[]%elem_of_nil]%elem_of_cons.
        specialize (Hold r Hr). cbn in Heq. lia.
      * apply NoDup_singleton.
    + rewrite lookup_insert_ne in Hc' by done. eauto.
  - intros c1 c2 l1 l2 r1 r2 Hne H1 H2 Hr1 Hr2.
    destruct (decide (c = c1)) as [<-|Hne1]; [|destruct (decide (c = c2)) as [<-|Hne2]].
    + rewrite lookup_insert_eq in H1. injection H1 as <-.
      rewrite lookup_insert_ne in H2 by done.
      destruct (Hnew r1 Hr1) as [Hin| ->].
      * destruct Hl as [Hl | [_ ->]]; [eauto | by apply elem_of_nil in Hin].
      * specialize (Hbelow c2 l2 r2 H2 Hr2). cbn. lia.
    + rewrite lookup_insert_eq in H2. injection H2 as <-.
      rewrite lookup_insert_ne in H1 by done.
      destruct (Hnew r2 Hr2) as [Hin| ->].
      * destruct Hl as [Hl | [_ ->]]; [eauto | by apply elem_of_nil in Hin].
      * specialize (Hbelow c1 l1 r1 H1 Hr1). cbn. lia.
    + rewrite lookup_insert_ne in H1, H2 by done. eauto.
Qed.

Lemma consistent_removed (st : store) (c : string) (l : list Recipe) (i : nat) :
  consistent st → recipesByCity st !! c = Some l →
  consistent (updated st c (delete i l)).
Proof.
  intros [Hbelow Hdistinct Hapart] Hl.
  split; unfold updated; cbn [recipesByCity nextRecipeId].
  - intros c' l' r Hc' Hr. destruct (decide (c = c')) as [<-|Hne].
    + rewrite lookup_insert_eq in Hc'. injection Hc' as <-.
      eauto using list_elem_of_delete_inv.
    + rewrite lookup_insert_ne in Hc' by done. eauto.
  - intros c' l' Hc'. destruct (decide (c = c')) as [<-|Hne].
    + rewrite lookup_insert_eq in Hc'. injection Hc' as <-.
      rewrite list_fmap_delete. eapply sublist_NoDup; [eauto | apply sublist_delete].
    + rewrite lookup_insert_ne in Hc' by done. eauto.
  - intros c1 c2 l1 l2 r1 r2 Hne H1 H2 Hr1 Hr2.
    destruct (decide (c = c1)) as [<-|Hne1]; [|destruct (decide (c = c2)) as [<-|Hne2]].
    + rewrite lookup_insert_eq in H1. injection H1 as <-.
      rewrite lookup_insert_ne in H2 by done.
      eauto using list_elem_of_delete_inv.
    + rewrite lookup_insert_eq in H2. injection H2 as <-.
      rewrite lookup_insert_ne in H1 by done.
      eauto using list_elem_of_delete_inv.
    + rewrite lookup_insert_ne in H1, H2 by done. eauto.
Qed.

Lemma consistent_effect (st st' : store) :
  consistent st → effect st st' → consistent st'.
Proof.
  intros Hst [| | c text Hc _ | c l text Hc | c l i Hc].
  - assumption.
  - destruct Hst as [Hbelow Hdistinct Hapart]. split; cbn [recipesByCity nextRecipeId]; eauto.
    intros c l r Hc Hr. specialize (Hbelow c l r Hc Hr). lia.
  - apply consistent_created; auto.
  - apply consistent_created; auto.
  - by apply consistent_removed.
Qed.

Lemma serve_all_cons (up : upstream) (r : request) (rest : list (upstream * request)) (st : store) :
  serve_all ((up, r) :: rest) st =
  ((serve up r st).1 :: (serve_all rest (serve up r st).2).1,
   (serve_all rest (serve up r st).2).2).
Proof.
  cbn [serve_all]. destruct (serve up r st) as [out st1]. cbn [fst snd].
  destruct (serve_all rest st1) as [outs st2]. reflexivity.
Qed.

Lemma consistent_serve_all (reqs : list (upstream * request)) (st : store) :
  consistent st → consistent (serve_all reqs st).2.
Proof.
  revert st. induction reqs as [|[up r] rest IH]; intros st Hst; [exact Hst|].
  rewrite serve_all_cons. cbn [snd]. apply IH.
  eapply consistent_effect; [exact Hst | apply serve_effect].
Qed.

Lemma reachable_consistent (st : store) : reachable st → consistent st.
Proof. intros [reqs <-]. apply consistent_serve_all, consistent_initial. Qed.

(** ** The identifier counter *)

Lemma effect_counter (st st' : store) :
  effect st st' → nextRecipeId st ≤ nextRecipeId st'.
Proof. intros []; cbn; lia. Qed.

Lemma serve_counter (up : upstream) (r : request) (st : store) :
  nextRecipeId st ≤ nextRecipeId (serve up r st).2.
Proof. apply effect_counter, serve_effect. Qed.

(** A reply with status 201, or carrying a recipe, comes from a create that
    took the counter's value and advanced it by one. *)
Lemma serve_issued (up : upstream) (r : request) (st st' : store) (rep : reply) :
  serve up r st = (Normal rep, st') →
  code rep = 201 ∨ (∃ rec, body rep = RecipeBody rec) →
  ∃ text, rep = mkReply 201 (RecipeBody (Recipe.mk (nextRecipeId st) text)) ∧
          nextRecipeId st' = nextRecipeId st + 1.
Proof.
  assert (Hno : ∀ c msg, mkReply c (ErrorBody msg) = rep → c ≠ 201 →
                code rep = 201 ∨ (∃ rec, body rep = RecipeBody rec) → False).
  { intros c msg <- Hc [?|[rec ?]]; [contradiction | discriminate]. }
  destruct r as [c | c b | c i].
  - rewrite serve_get_infos. unfold replied. intros Heq Hrep. exfalso.
    destruct (up (InsightsUrl c)) as [|res]; [by injection Heq as Heq _; eapply Hno|].
    destruct (negb (ok res)); [by injection Heq as Heq _; eapply Hno|].
    destruct (json_body res) as [d|]; [|by injection Heq as Heq _; eapply Hno].
    destruct (result_of (read_city d)) as [[[? ?] ?]|]; [|by injection Heq as Heq _; eapply Hno].
    destruct (up (WeatherUrl c)) as [|wres]; [by injection Heq as Heq _; eapply Hno|].
    destruct (json_body wres) as [w|]; [|by injection Heq as Heq _; eapply Hno].
    destruct (result_of (read_weather w)); [|by injection Heq as Heq _; eapply Hno].
    injection Heq as <- _. destruct Hrep as [?|[rec ?]]; discriminate.
  - rewrite serve_post_recipe. unfold replied. intros Heq Hrep.
    destruct (get_member b "content") as [content|]; [|discriminate].
    destruct (up (InsightsUrl c)) as [|res];
      [by exfalso; injection Heq as Heq _; eapply Hno|].
    destruct (negb (ok res)); [by exfalso; injection Heq as Heq _; eapply Hno|].
    destruct (negb (truthy content) || negb (is_string content));
      [by exfalso; injection Heq as Heq _; eapply Hno|].
    destruct content as [| | flag | q | text | elems | props];
      try (by exfalso; injection Heq as Heq _; eapply Hno).
    destruct (js_length text <? 10)%Z; [by exfalso; injection Heq as Heq _; eapply Hno|].
    destruct (2000 <? js_length text)%Z; [by exfalso; injection Heq as Heq _; eapply Hno|].
    destruct (lookup_city st c) as [|l|key].
    + injection Heq as <- <-. eexists; split; reflexivity.
    + injection Heq as <- <-. eexists; split; reflexivity.
    + by exfalso; injection Heq as Heq _; eapply Hno.
  - rewrite serve_delete_recipe. unfold replied. intros Heq Hrep. exfalso.
    destruct (up (InsightsUrl c)) as [|res]; [by injection Heq as Heq _; eapply Hno|].
    destruct (negb (ok res)); [by injection Heq as Heq _; eapply Hno|].
    destruct (lookup_city st c) as [|l|key]; try (by injection Heq as Heq _; eapply Hno).
    cbv zeta in Heq. destruct (_ =? -1)%Z; [by injection Heq as Heq _; eapply Hno|].
    injection Heq as <- _. destruct Hrep as [?|[rec ?]]; discriminate.
Qed.

Lemma serve_all_counter (reqs : list (upstream * request)) (st : store) :
  nextRecipeId st ≤ nextRecipeId (serve_all reqs st).2.
Proof.
  revert st. induction reqs as [|[up r] rest IH]; intros st; [cbn; lia|].
  rewrite serve_all_cons. cbn [snd].
  etrans; [apply (serve_counter up r st) | apply IH].
Qed.

(** Every identifier issued while a sequence is served is at least the
    counter's value at the start. *)
Lemma serve_all_issued_from (reqs : list (upstream * request)) (st : store)
    (j : nat) (rec : Recipe) :
  (serve_all reqs st).1 !! j = Some (replied 201 (RecipeBody rec)) →
  nextRecipeId st ≤ Recipe.id rec.
Proof.
  revert st j. induction reqs as [|[up r] rest IH]; intros st j; [cbn [serve_all fst]; by rewrite lookup_nil|].
  rewrite serve_all_cons. cbn [fst]. destruct j as [|j]; cbn [lookup list_lookup].
  - destruct (serve up r st) as [out st1] eqn:Hserve. cbn [fst]. intros [= ->].
    destruct (serve_issued up r st st1 _ Hserve) as (text & [= ->] & _); [by left|].
    cbn. lia.
  - intros Hj. apply IH in Hj. pose proof (serve_counter up r st). lia.
Qed.

(** C1. A successful create returns the counter's value before the increment
    and advances the counter by one; no request ever lowers the counter, and
    a delete leaves it as it is; hence in any sequence of requests, from any
    store, an identifier returned by a successful create is strictly greater
    than every identifier returned before it. *)
Theorem create_allocates_next_identifier :
  (∀ up cityId request_body st rep st',
      serve up (PostRecipe cityId request_body) st = (Normal rep, st') →
      code rep = 201 →
      ∃ text, body rep = RecipeBody (Recipe.mk (nextRecipeId st) text) ∧
              nextRecipeId st' = nextRecipeId st + 1) ∧
  (∀ up r st,
      nextRecipeId st ≤ nextRecipeId (serve up r st).2 ∧
      (∀ cityId recipeId, r = DeleteRecipe cityId recipeId →
                          nextRecipeId (serve up r st).2 = nextRecipeId st)) ∧
  (∀ reqs st i j earlier later,
      (i < j)%nat →
      (serve_all reqs st).1 !! i = Some (replied 201 (RecipeBody earlier)) →
      (serve_all reqs st).1 !! j = Some (replied 201 (RecipeBody later)) →
      Recipe.id earlier < Recipe.id later).
Proof.
  split; [|split].
  - intros up cityId request_body st rep st' Hserve Hcode.
    destruct (serve_issued _ _ _ _ _ Hserve (or_introl Hcode)) as (text & -> & Hnext).
    by exists text.
  - intros up r st. split; [apply serve_counter|].
    intros cityId recipeId ->. rewrite serve_delete_recipe.
    destruct (up (InsightsUrl cityId)) as [|res]; [reflexivity|].
    destruct (negb (ok res)); [reflexivity|].
    destruct (lookup_city st cityId); try reflexivity.
    cbv zeta. by destruct (_ =? -1)%Z.
  - intros reqs. induction reqs as [|[up r] rest IH]; intros st i j earlier later Hij;
      [cbn [serve_all fst]; by rewrite lookup_nil|].
    rewrite serve_all_cons. cbn [fst].
    destruct j as [|j]; [lia|]. destruct i as [|i]; cbn [lookup list_lookup].
    + destruct (serve up r st) as [out st1] eqn:Hserve. cbn [fst snd]. intros [= ->] Hj.
      destruct (serve_issued up r st st1 _ Hserve) as (text & [= ->] & Hnext); [by left|].
      apply serve_all_issued_from in Hj. cbn. lia.
    + apply IH. lia.
Qed.

(** C6. In every reachable state no two stored recipes share an identifier,
    be they in one array or in the arrays of two cities, and every stored
    identifier is below the counter. *)
Theorem recipe_identifiers_unique (st : store) :
  reachable st →
  (∀ c1 c2 l1 l2 i j r1 r2,
      recipesByCity st !! c1 = Some l1 → recipesByCity st !! c2 = Some l2 →
      l1 !! i = Some r1 → l2 !! j = Some r2 →
      Recipe.id r1 = Recipe.id r2 → c1 = c2 ∧ i = j) ∧
  (∀ c l r, recipesByCity st !! c = Some l → r ∈ l → Recipe.id r < nextRecipeId st).
Proof.
  intros [Hbelow Hdistinct Hapart]%reachable_consistent. split; [|exact Hbelow].
  intros c1 c2 l1 l2 i j r1 r2 H1 H2 Hi Hj Hid.
  destruct (decide (c1 = c2)) as [->|Hne].
  - split; [reflexivity|]. rewrite H1 in H2. injection H2 as <-.
    apply (NoDup_lookup (Recipe.id <$> l1) i j (Recipe.id r1)); [eauto | |].
    + by rewrite list_lookup_fmap, Hi.
    + by rewrite list_lookup_fmap, Hj, Hid.
  - exfalso. eapply (Hapart c1 c2 l1 l2 r1 r2); eauto using list_elem_of_lookup_2.
Qed.

(** C7. Whatever the reply, [GET /cities/:cityId/infos] leaves the recipes
    and the counter as they were. *)
Theorem get_infos_leaves_store_unchanged (up : upstream) (cityId : string) (st : store) :
  (serve up (GetInfos cityId) st).2 = st.
Proof. by rewrite serve_get_infos. Qed.

(** ** Unknown cities *)

(** Every handler starts with the city lookup, except a create whose
    [request.body] cannot be destructured: it throws at line 119, before
    any call. *)
Lemma handler_first_call (r : request) :
  first_call (handler r) =
  match r with
  | PostRecipe _ request_body =>
      if nullish request_body then None else Some (InsightsUrl (city_of r))
  | _ => Some (InsightsUrl (city_of r))
  end.
Proof. destruct r as [c | c b | c i]; [reflexivity | by destruct b | reflexivity]. Qed.

(** C5. On each of the three endpoints, when the city lookup is answered with
    a non-success response, the reply is 404 "City not found" and the store
    is left as it was. *)
Theorem unknown_city_is_not_found (up : upstream) (r : request) (st : store)
    (cityRes : response) :
  first_call (handler r) = Some (InsightsUrl (city_of r)) →
  up (InsightsUrl (city_of r)) = Resolved cityRes →
  ok cityRes = false →
  serve up r st = (replied 404 (ErrorBody "City not found"), st).
Proof.
  intros Hcall Hup Hok. destruct r as [c | c b | c i]; cbn [city_of] in Hup.
  - by rewrite serve_get_infos, Hup, Hok.
  - rewrite serve_post_recipe, Hup, Hok.
    rewrite handler_first_call in Hcall.
    destruct b; try discriminate Hcall; reflexivity.
  - by rewrite serve_delete_recipe, Hup, Hok.
Qed.

Lemma unknown_city_is_not_found_witness :
  serve unknown_city_upstream (GetInfos "atlantis") initial_store
    = (replied 404 (ErrorBody "City not found"), initial_store) ∧
  serve unknown_city_upstream (PostRecipe "atlantis" (sample_body "Bring flour and sugar"))
        initial_store
    = (replied 404 (ErrorBody "City not found"), initial_store) ∧
  serve unknown_city_upstream (DeleteRecipe "atlantis" "1") initial_store
    = (replied 404 (ErrorBody "City not found"), initial_store).
Proof.
  split; [|split];
    apply (unknown_city_is_not_found unknown_city_upstream _ initial_store
             (mkResponse false (Some (Obj [("error", Str "Not found")]))));
    reflexivity.
Defined.

(** ** Validation of the content *)

(** C10. On an existing city, a content that is the empty string, or any
    falsy or non-string value, is answered 400 "Content is required": the
    presence check comes before the length checks. *)
Theorem falsy_content_is_required (up : upstream) (cityId : string)
    (request_body content : value) (st : store) (cityRes : response) :
  up (InsightsUrl cityId) = Resolved cityRes →
  ok cityRes = true →
  get_member request_body "content" = Normal content →
  content = Str "" ∨ truthy content = false ∨ is_string content = false →
  serve up (PostRecipe cityId request_body) st
    = (replied 400 (ErrorBody "Content is required"), st).
Proof.
  intros Hup Hok Hcontent Hfalsy.
  rewrite serve_post_recipe, Hcontent, Hup, Hok. cbn [negb].
  replace (negb (truthy content) || negb (is_string content)) with true; [reflexivity|].
  destruct Hfalsy as [-> | [-> | ->]]; [reflexivity | reflexivity | by rewrite orb_true_r].
Qed.

Lemma falsy_content_is_required_witness :
  serve sample_upstream (PostRecipe "42" (sample_body "")) initial_store
    = (replied 400 (ErrorBody "Content is required"), initial_store).
Proof.
  eapply (falsy_content_is_required sample_upstream "42" (sample_body "") (Str ""));
    [reflexivity | reflexivity | reflexivity | by left].
Defined.

(** ** The city snapshot *)

(** C8. When the city lookup succeeds and the insight payload has no list of
    coordinates, or an empty one, reading the first coordinate throws; the
    exception is caught by the handler's own [catch], and the reply is 500
    "Internal Server Error". *)
Theorem get_infos_missing_coordinates_is_caught (up : upstream) (cityId : string)
    (st : store) (cityRes : response) (cityData all : value) :
  up (InsightsUrl cityId) = Resolved cityRes →
  ok cityRes = true →
  json_body cityRes = Some cityData →
  get_member cityData "coordinates" = Normal all →
  all = Undefined ∨ all = Arr [] →
  read_city cityData = Throw ∧
  serve up (GetInfos cityId) st = (replied 500 (ErrorBody "Internal Server Error"), st).
Proof.
  intros Hup Hok Hjson Hall Hmissing.
  assert (Hread : read_city cityData = Throw).
  { unfold read_city. rewrite Hall. by destruct Hmissing as [-> | ->]. }
  split; [exact Hread|].
  by rewrite serve_get_infos, Hup, Hok, Hjson, Hread.
Qed.

Lemma get_infos_missing_coordinates_is_caught_witness :
  read_city (Obj [("coordinates", Arr []); ("population", Num 1); ("knownFor", Arr [])]) = Throw ∧
  serve no_coordinates_upstream (GetInfos "42") initial_store
    = (replied 500 (ErrorBody "Internal Server Error"), initial_store).
Proof.
  eapply (get_infos_missing_coordinates_is_caught no_coordinates_upstream "42" initial_store);
    [reflexivity | reflexivity | reflexivity | reflexivity | by right].
Defined.

(** [v[i]] where [v] is neither [undefined] nor [null]. *)
Lemma get_index_defined (v : value) (i : nat) :
  nullish v = false → ∃ x, get_index v i = Normal x.
Proof. destruct v; try discriminate; intros _; eexists; reflexivity. Qed.

Lemma js_or_array_defined (v : value) : nullish (js_or v (Arr [])) = false.
Proof. unfold js_or. destruct (truthy v) eqn:Hv; [by destruct v | reflexivity]. Qed.

Lemma temperature_defined (predictions : value) (i : nat) (name : string) :
  nullish predictions = false →
  ∃ x, get_index predictions i = Normal x ∧
       temperature predictions i name
         = Return (js_coalesce (get_member_opt x name) (Num 0)).
Proof.
  intros Hp. destruct (get_index_defined predictions i Hp) as [x Hx].
  exists x. split; [exact Hx|]. unfold temperature. by rewrite Hx.
Qed.

(** The code's [predictions[i]?.name ?? 0] is the reading of the
    specification. *)
Lemma reading_spec (prediction : option value) (name : string) :
  js_coalesce (get_member_opt (default Undefined prediction) name) (Num 0)
  = reading prediction name.
Proof.
  destruct prediction as [[| | flag | q | s | elems | fields]|]; try reflexivity.
  cbn. unfold get_member_opt, js_coalesce. cbn.
  by destruct (own_property name fields).
Qed.

Lemma read_weather_defined (weatherData : value) :
  nullish weatherData = false →
  ∃ first p0 p1,
    get_index weatherData 0 = Normal first ∧
    get_index (js_or (get_member_opt first "predictions") (Arr [])) 0 = Normal p0 ∧
    get_index (js_or (get_member_opt first "predictions") (Arr [])) 1 = Normal p1 ∧
    read_weather weatherData =
      Return [ Forecast.mk "today"
                 (js_coalesce (get_member_opt p0 "minTemperature") (Num 0))
                 (js_coalesce (get_member_opt p0 "maxTemperature") (Num 0));
               Forecast.mk "tomorrow"
                 (js_coalesce (get_member_opt p1 "minTemperature") (Num 0))
                 (js_coalesce (get_member_opt p1 "maxTemperature") (Num 0)) ].
Proof.
  intros Hw. destruct (get_index_defined weatherData 0 Hw) as [first Hfirst].
  pose proof (js_or_array_defined (get_member_opt first "predictions")) as Hp.
  destruct (get_index_defined _ 0 Hp) as [p0 H0].
  destruct (get_index_defined _ 1 Hp) as [p1 H1].
  exists first, p0, p1. repeat split; try assumption.
  unfold read_weather, temperature. rewrite Hfirst. cbn [lift mbind async_mbind async_bind].
  rewrite H0, H1. reflexivity.
Qed.

(** The forecast of every snapshot a [GET] returns. *)
Lemma get_infos_forecasts_shape (up : upstream) (cityId : string) (st st' : store)
    (rep : reply) (info : city_info) :
  serve up (GetInfos cityId) st = (Normal rep, st') →
  body rep = InfoBody info →
  ∃ today tomorrow,
    weatherPredictions info = [today; tomorrow] ∧
    Forecast.when today = "today" ∧ Forecast.when tomorrow = "tomorrow".
Proof.
  rewrite serve_get_infos. unfold replied.
  destruct (up (InsightsUrl cityId)) as [|res]; [by intros [= <- _]|].
  destruct (negb (ok res)); [by intros [= <- _]|].
  destruct (json_body res) as [d|]; [|by intros [= <- _]].
  destruct (result_of (read_city d)) as [[[? ?] ?]|]; [|by intros [= <- _]].
  destruct (up (WeatherUrl cityId)) as [|wres]; [by intros [= <- _]|].
  destruct (json_body wres) as [w|]; [|by intros [= <- _]].
  destruct (nullish w) eqn:Hw.
  { by destruct w; try discriminate Hw; intros [= <- _]. }
  destruct (read_weather_defined w Hw) as (first & p0 & p1 & _ & _ & _ & ->).
  intros [= <- _] [= <-]. eexists _, _. repeat split.
Qed.

(** C2. Every snapshot returned by [GET /cities/:cityId/infos] has a
    [weatherPredictions] of exactly two entries, "today" then "tomorrow".
    When the city lookup succeeds and the weather call answers with a JSON
    document, the request does not fail: the reply is 200, and the [min] and
    [max] of the two entries are the readings of the first and of the second
    upstream prediction, 0 for a missing prediction or field; an empty
    weather list, or a first element without predictions, gives two entries
    of zeros. *)
Theorem get_infos_two_forecasts :
  (∀ up cityId st st' rep info,
      serve up (GetInfos cityId) st = (Normal rep, st') →
      body rep = InfoBody info →
      ∃ today tomorrow,
        weatherPredictions info = [today; tomorrow] ∧
        Forecast.when today = "today" ∧ Forecast.when tomorrow = "tomorrow") ∧
  (∀ up cityId st cityRes weatherRes cityData weatherData city,
      up (InsightsUrl cityId) = Resolved cityRes →
      ok cityRes = true →
      json_body cityRes = Some cityData →
      read_city cityData = Return city →
      up (WeatherUrl cityId) = Resolved weatherRes →
      json_body weatherRes = Some weatherData →
      nullish weatherData = false →
      ∃ info today tomorrow,
        serve up (GetInfos cityId) st = (replied 200 (InfoBody info), st) ∧
        weatherPredictions info = [today; tomorrow] ∧
        Forecast.when today = "today" ∧
        Forecast.when tomorrow = "tomorrow" ∧
        (∀ first others predictions,
            weatherData = Arr (Obj first :: others) →
            own_property "predictions" first = Some (Arr predictions) →
            Forecast.min today = reading (predictions !! 0%nat) "minTemperature" ∧
            Forecast.max today = reading (predictions !! 0%nat) "maxTemperature" ∧
            Forecast.min tomorrow = reading (predictions !! 1%nat) "minTemperature" ∧
            Forecast.max tomorrow = reading (predictions !! 1%nat) "maxTemperature") ∧
        (weatherData = Arr [] ∨
         (∃ first others, weatherData = Arr (Obj first :: others) ∧
                          own_property "predictions" first = None) →
         today = Forecast.mk "today" (Num 0) (Num 0) ∧
         tomorrow = Forecast.mk "tomorrow" (Num 0) (Num 0))).
Proof.
  split; [intros *; apply get_infos_forecasts_shape|].
  intros up cityId st cityRes weatherRes cityData weatherData city
    Hup Hok Hjson Hcity Hwup Hwjson Hw.
  destruct (read_weather_defined weatherData Hw) as (first & p0 & p1 & Hfirst & H0 & H1 & Hread).
  destruct city as [[coordinates population] knownFor].
  eexists _, _, _. split; [|split; [|split; [|split; [|split]]]].
  - rewrite serve_get_infos, Hup, Hok, Hjson, Hcity, Hwup, Hwjson, Hread. reflexivity.
  - reflexivity.
  - reflexivity.
  - reflexivity.
  - intros fields others predictions -> Hpredictions.
    cbn in Hfirst. injection Hfirst as <-.
    unfold get_member_opt in H0, H1. cbn in H0, H1. rewrite Hpredictions in H0, H1.
    cbn in H0, H1. injection H0 as <-. injection H1 as <-.
    cbn [Forecast.min Forecast.max]. by rewrite !reading_spec.
  - intros [-> | (fields & others & -> & Hnone)].
    + cbn in Hfirst. injection Hfirst as <-.
      cbn in H0, H1. injection H0 as <-. injection H1 as <-. by split.
    + cbn in Hfirst. injection Hfirst as <-.
      unfold get_member_opt in H0, H1. cbn in H0, H1. rewrite Hnone in H0, H1.
      cbn in H0, H1. injection H0 as <-. injection H1 as <-. by split.
Qed.

Lemma get_infos_two_forecasts_witness :
  (∃ info today tomorrow,
      serve sample_upstream (GetInfos "42") initial_store
        = (replied 200 (InfoBody info), initial_store) ∧
      weatherPredictions info = [today; tomorrow] ∧
      today = Forecast.mk "today" (Num 12) (Num 21) ∧
      tomorrow = Forecast.mk "tomorrow" (Num 9) (Num 0)) ∧
  (∃ info today tomorrow,
      serve no_forecast_upstream (GetInfos "42") initial_store
        = (replied 200 (InfoBody info), initial_store) ∧
      weatherPredictions info = [today; tomorrow] ∧
      today = Forecast.mk "today" (Num 0) (Num 0) ∧
      tomorrow = Forecast.mk "tomorrow" (Num 0) (Num 0)).
Proof.
  destruct get_infos_two_forecasts as [_ Hvalues]. split.
  - destruct (Hvalues sample_upstream "42" initial_store
                (mkResponse true (Some sample_insights)) (mkResponse true (Some sample_weather))
                sample_insights sample_weather
                ([Num (4885 # 100); Num (235 # 100)], Num 2148000, [Str "Cuisine"])
                eq_refl eq_refl eq_refl eq_refl eq_refl eq_refl eq_refl)
      as (info & today & tomorrow & Hserve & Hlist & Htoday & Htomorrow & Hread & _).
    exists info, today, tomorrow. split; [exact Hserve|]. split; [exact Hlist|].
    destruct (Hread _ _ _ eq_refl eq_refl) as (Hmin0 & Hmax0 & Hmin1 & Hmax1).
    destruct today, tomorrow. cbn in *. by subst.
  - destruct (Hvalues no_forecast_upstream "42" initial_store
                (mkResponse true (Some sample_insights)) (mkResponse true (Some (Arr [])))
                sample_insights (Arr [])
                ([Num (4885 # 100); Num (235 # 100)], Num 2148000, [Str "Cuisine"])
                eq_refl eq_refl eq_refl eq_refl eq_refl eq_refl eq_refl)
      as (info & today & tomorrow & Hserve & Hlist & _ & _ & _ & Hempty).
    exists info, today, tomorrow. split; [exact Hserve|]. split; [exact Hlist|].
    apply Hempty. by left.
Defined.

(** ** Deleting a recipe *)

(** The recipes listed by a successful [GET /cities/:cityId/infos]. *)
Lemma get_infos_recipes (up : upstream) (cityId : string) (st st' : store)
    (rep : reply) (info : city_info) :
  serve up (GetInfos cityId) st = (Normal rep, st') →
  body rep = InfoBody info →
  recipes info = if slot_truthy (lookup_city st cityId)
                 then lookup_city st cityId else Recipes [].
Proof.
  rewrite serve_get_infos. unfold replied.
  destruct (up (InsightsUrl cityId)) as [|res]; [by intros [= <- _]|].
  destruct (negb (ok res)); [by intros [= <- _]|].
  destruct (json_body res) as [d|]; [|by intros [= <- _]].
  destruct (result_of (read_city d)) as [[[? ?] ?]|]; [|by intros [= <- _]].
  destruct (up (WeatherUrl cityId)) as [|wres]; [by intros [= <- _]|].
  destruct (json_body wres) as [w|]; [|by intros [= <- _]].
  destruct (result_of (read_weather w)); [|by intros [= <- _]].
  by intros [= <- _] [= <-].
Qed.

Lemma lookup_city_updated (st : store) (cityId : string) (l : list Recipe) :
  lookup_city (updated st cityId l) cityId = Recipes l.
Proof. apply lookup_city_recipes. cbn. apply lookup_insert_eq. Qed.

(** Deleting from an array in which the identifier [n] occurs at [r], after
    [before] where it does not occur. *)
Lemma serve_delete_found (up : upstream) (cityId recipeId : string) (st : store)
    (cityRes : response) (n : Z) (before after : list Recipe) (r : Recipe) :
  up (InsightsUrl cityId) = Resolved cityRes → ok cityRes = true →
  parseInt recipeId = Some n →
  recipesByCity st !! cityId = Some (before ++ r :: after) →
  Forall (fun y => strict_equal (Recipe.id y) (Some n) = false) before →
  Recipe.id r = n →
  serve up (DeleteRecipe cityId recipeId) st
    = (replied 204 EmptyBody, updated st cityId (before ++ after)).
Proof.
  intros Hup Hok Hparse Hl Hbefore Hr.
  rewrite serve_delete_recipe, Hup, Hok, Hparse. cbn [negb].
  apply lookup_city_recipes in Hl. rewrite Hl. cbv zeta.
  unfold findIndex. rewrite findIndex_from_found; [|exact Hbefore | cbn; lia].
  rewrite Z.add_0_l. destruct (Z.eqb_spec (Z.of_nat (length before)) (-1)); [lia|].
  by rewrite splice_middle.
Qed.

(** Deleting an identifier that does not occur in the city's array. *)
Lemma serve_delete_not_found (up : upstream) (cityId recipeId : string) (st : store)
    (cityRes : response) (l : list Recipe) :
  up (InsightsUrl cityId) = Resolved cityRes → ok cityRes = true →
  recipesByCity st !! cityId = Some l →
  Forall (fun y => strict_equal (Recipe.id y) (parseInt recipeId) = false) l →
  serve up (DeleteRecipe cityId recipeId) st
    = (replied 404 (ErrorBody "Recipe not found"), st).
Proof.
  intros Hup Hok Hl Hnone.
  rewrite serve_delete_recipe, Hup, Hok. cbn [negb].
  apply lookup_city_recipes in Hl. rewrite Hl. cbv zeta.
  unfold findIndex. by rewrite findIndex_from_none.
Qed.

Lemma strict_equal_false (k n : Z) : strict_equal k (Some n) = false ↔ k ≠ n.
Proof. cbn. destruct (Z.eqb_spec k n); split; congruence. Qed.

(** C4. On an existing city whose array holds the parsed identifier, a
    delete removes exactly that entry and keeps the others in their order;
    the reply is 204 with an empty body; the identifier no longer occurs in
    the array, a later [GET] of the city lists exactly the remaining
    recipes, and a second delete of the same identifier is answered 404
    "Recipe not found". *)
Theorem delete_recipe_removes_exactly_one (st : store) (up : upstream)
    (cityId recipeId : string) (cityRes : response) (l : list Recipe) (n : Z) :
  reachable st →
  up (InsightsUrl cityId) = Resolved cityRes →
  ok cityRes = true →
  recipesByCity st !! cityId = Some l →
  parseInt recipeId = Some n →
  (∃ r, r ∈ l ∧ Recipe.id r = n) →
  ∃ before r after,
    l = before ++ r :: after ∧
    Recipe.id r = n ∧
    serve up (DeleteRecipe cityId recipeId) st
      = (replied 204 EmptyBody, updated st cityId (before ++ after)) ∧
    (∀ r', r' ∈ before ++ after → Recipe.id r' ≠ n) ∧
    (∀ up' rep st' info,
        serve up' (GetInfos cityId) (updated st cityId (before ++ after)) = (Normal rep, st') →
        body rep = InfoBody info →
        recipes info = Recipes (before ++ after)) ∧
    (∀ up' cityRes',
        up' (InsightsUrl cityId) = Resolved cityRes' → ok cityRes' = true →
        serve up' (DeleteRecipe cityId recipeId) (updated st cityId (before ++ after))
          = (replied 404 (ErrorBody "Recipe not found"),
             updated st cityId (before ++ after))).
Proof.
  intros Hst Hup Hok Hl Hparse (r0 & Hr0 & Hid0).
  destruct (first_match (fun y => strict_equal (Recipe.id y) (Some n)) l)
    as [Hnone | (before & r & after & -> & Hbefore & Hr)].
  { exfalso. rewrite Forall_forall in Hnone. specialize (Hnone r0 Hr0).
    apply strict_equal_false in Hnone. contradiction. }
  assert (Hid : Recipe.id r = n).
  { cbn in Hr. by apply Z.eqb_eq. }
  assert (Hgone : ∀ r', r' ∈ before ++ after → Recipe.id r' ≠ n).
  { pose proof (ids_distinct st (reachable_consistent st Hst) cityId _ Hl) as Hnodup.
    rewrite fmap_app, fmap_cons in Hnodup.
    apply NoDup_app in Hnodup as (_ & Hcross & [Hnotin _]%NoDup_cons).
    intros r' [Hin | Hin]%elem_of_app Heq.
    - apply (Hcross (Recipe.id r')); [by apply list_elem_of_fmap_2|].
      rewrite Heq, <- Hid. apply elem_of_cons. by left.
    - apply Hnotin. rewrite Hid, <- Heq. by apply list_elem_of_fmap_2. }
  exists before, r, after. split; [reflexivity|]. split; [exact Hid|].
  split; [by eapply serve_delete_found|]. split; [exact Hgone|]. split.
  - intros up' rep st' info Hserve Hbody.
    rewrite (get_infos_recipes _ _ _ _ _ _ Hserve Hbody), lookup_city_updated. reflexivity.
  - intros up' cityRes' Hup' Hok'.
    eapply serve_delete_not_found; [exact Hup' | exact Hok' | cbn; apply lookup_insert_eq |].
    rewrite Hparse. apply Forall_forall. intros r' Hr'.
    by apply strict_equal_false, Hgone.
Qed.

Lemma delete_recipe_removes_exactly_one_witness :
  ∃ before r after,
    [Recipe.mk 1 "Bring flour and sugar"; Recipe.mk 2 "Bring butter and eggs"]
      = before ++ r :: after ∧
    Recipe.id r = 1 ∧
    serve sample_upstream (DeleteRecipe "42" "1") (serve_all two_recipes initial_store).2
      = (replied 204 EmptyBody,
         updated (serve_all two_recipes initial_store).2 "42" (before ++ after)) ∧
    (∀ r', r' ∈ before ++ after → Recipe.id r' ≠ 1).
Proof.
  destruct (delete_recipe_removes_exactly_one (serve_all two_recipes initial_store).2
              sample_upstream "42" "1" (mkResponse true (Some sample_insights))
              [Recipe.mk 1 "Bring flour and sugar"; Recipe.mk 2 "Bring butter and eggs"] 1)
    as (before & r & after & Hsplit & Hid & Hserve & Hgone & _).
  - by exists two_recipes.
  - reflexivity.
  - reflexivity.
  - reflexivity.
  - reflexivity.
  - exists (Recipe.mk 1 "Bring flour and sugar"). split; [apply elem_of_cons; by left | reflexivity].
  - by exists before, r, after.
Defined.

(** ** Witnesses on the scenario of the specification *)

Lemma create_allocates_next_identifier_witness :
  (∃ text,
      body (mkReply 201 (RecipeBody (Recipe.mk 1 "Bring flour and sugar")))
        = RecipeBody (Recipe.mk (nextRecipeId initial_store) text) ∧
      nextRecipeId (created initial_store "42" [] "Bring flour and sugar")
        = nextRecipeId initial_store + 1) ∧
  Recipe.id (Recipe.mk 1 "Bring flour and sugar")
    < Recipe.id (Recipe.mk 2 "Bring butter and eggs").
Proof.
  destruct create_allocates_next_identifier as (Hcreate & _ & Hsequence).
  split.
  - eapply (Hcreate sample_upstream "42" (sample_body "Bring flour and sugar") initial_store);
      reflexivity.
  - eapply (Hsequence two_recipes initial_store 0%nat 1%nat); [lia | reflexivity | reflexivity].
Defined.

Lemma recipe_identifiers_unique_witness :
  (∀ c1 c2 l1 l2 i j r1 r2,
      recipesByCity (serve_all two_recipes initial_store).2 !! c1 = Some l1 →
      recipesByCity (serve_all two_recipes initial_store).2 !! c2 = Some l2 →
      l1 !! i = Some r1 → l2 !! j = Some r2 →
      Recipe.id r1 = Recipe.id r2 → c1 = c2 ∧ i = j) ∧
  (∀ c l r, recipesByCity (serve_all two_recipes initial_store).2 !! c = Some l → r ∈ l →
            Recipe.id r < nextRecipeId (serve_all two_recipes initial_store).2).
Proof.
  apply (recipe_identifiers_unique (serve_all two_recipes initial_store).2).
  by exists two_recipes.
Defined.

(** ** Requests without a body, and cities named like a member of [Object.prototype] *)

(** X18. The order of the checks, for a request whose body can be destructured
    and a city identifier that is not a member of [Object.prototype]. *)
Lemma content_validation_order (up : upstream) (cityId : string)
    (request_body content : value) (st : store) (cityRes : response) :
  up (InsightsUrl cityId) = Resolved cityRes →
  ok cityRes = true →
  get_member request_body "content" = Normal content →
  (truthy content = false ∨ is_string content = false →
   serve up (PostRecipe cityId request_body) st
     = (replied 400 (ErrorBody "Content is required"), st)) ∧
  (∀ text, content = Str text → 0 < js_length text < 10 →
   serve up (PostRecipe cityId request_body) st
     = (replied 400 (ErrorBody "Content too short (min 10 characters)"), st)) ∧
  (∀ text, content = Str text → 2000 < js_length text →
   serve up (PostRecipe cityId request_body) st
     = (replied 400 (ErrorBody "Content too long (max 2000 characters)"), st)) ∧
  (∀ text, content = Str text → 10 ≤ js_length text ≤ 2000 → inherited cityId = false →
   serve up (PostRecipe cityId request_body) st
     = (replied 201 (RecipeBody (Recipe.mk (nextRecipeId st) text)),
        created st cityId (default [] (recipesByCity st !! cityId)) text)).
Proof.
  intros Hup Hok Hcontent.
  assert (Hnonempty : ∀ text, 0 < js_length text → truthy (Str text) = true).
  { intros [|a text] Hpos; [unfold js_length in Hpos; cbn in Hpos; lia | reflexivity]. }
  repeat split.
  - intros Hfalsy. rewrite serve_post_recipe, Hcontent, Hup, Hok. cbn [negb].
    replace (negb (truthy content) || negb (is_string content)) with true; [reflexivity|].
    destruct Hfalsy as [-> | ->]; [reflexivity | by rewrite orb_true_r].
  - intros text -> [Hpos Hshort].
    rewrite serve_post_recipe, Hcontent, Hup, Hok, (Hnonempty text Hpos). cbn [negb orb is_string].
    destruct (Z.ltb_spec (js_length text) 10); [reflexivity | lia].
  - intros text -> Hlong.
    rewrite serve_post_recipe, Hcontent, Hup, Hok, (Hnonempty text) by lia.
    cbn [negb orb is_string].
    destruct (Z.ltb_spec (js_length text) 10); [lia|].
    destruct (Z.ltb_spec 2000 (js_length text)); [reflexivity | lia].
  - intros text -> [Hmin Hmax] Hplain.
    rewrite serve_post_recipe, Hcontent, Hup, Hok, (Hnonempty text) by lia.
    cbn [negb orb is_string].
    destruct (Z.ltb_spec (js_length text) 10); [lia|].
    destruct (Z.ltb_spec 2000 (js_length text)); [lia|].
    unfold lookup_city. rewrite Hplain.
    by destruct (recipesByCity st !! cityId).
Qed.

(** C3. A create request sent without a body, or with the body [null], is
    not answered 400 "Content is required": [request.body] is destructured
    at line 119, before the [try] statement, so that the TypeError leaves
    the handler, whatever the upstream answers, without any reply of the
    handler and without any call to the upstream. *)
Theorem create_without_body_escapes (up : upstream) (cityId : string) (st : store) :
  serve up (PostRecipe cityId Undefined) st = (Thrown, st) ∧
  serve up (PostRecipe cityId Null) st = (Thrown, st) ∧
  serve up (PostRecipe cityId Undefined) st
    ≠ (replied 400 (ErrorBody "Content is required"), st) ∧
  first_call (handler (PostRecipe cityId Undefined)) = None.
Proof. repeat split. discriminate. Qed.

(** City identifiers that are members of [Object.prototype] never get an
    array of their own. *)
Lemma effect_plain_keys (st st' : store) :
  effect st st' →
  (∀ c, inherited c = true → recipesByCity st !! c = None) →
  (∀ c, inherited c = true → recipesByCity st' !! c = None).
Proof.
  intros [| | c text Hc Hplain | c l text Hc | c l i Hc] Hkeys c' Hc'; cbn; auto.
  - rewrite lookup_insert_ne; [auto | congruence].
  - rewrite lookup_insert_ne; [auto|]. intros <-. rewrite Hkeys in Hc by done. discriminate.
  - rewrite lookup_insert_ne; [auto|]. intros <-. rewrite Hkeys in Hc by done. discriminate.
Qed.

Lemma reachable_plain_keys (st : store) (c : string) :
  reachable st → inherited c = true → recipesByCity st !! c = None.
Proof.
  intros [reqs <-]. revert c.
  assert (Hgen : ∀ st0, (∀ c, inherited c = true → recipesByCity st0 !! c = None) →
                 ∀ c, inherited c = true → recipesByCity (serve_all reqs st0).2 !! c = None).
  { induction reqs as [|[up r] rest IH]; intros st0 Hst0; [exact Hst0|].
    rewrite serve_all_cons. cbn [snd]. apply IH.
    eapply effect_plain_keys; [apply serve_effect | exact Hst0]. }
  apply Hgen. intros c _. apply lookup_empty.
Qed.

(** X19. The two kinds of 404 of a delete, for a city identifier that is not a
    member of [Object.prototype]: the array stays in the store when its last
    recipe is deleted. *)
Lemma delete_absent_versus_empty (up : upstream) (cityId recipeId : string) (st : store)
    (cityRes : response) :
  up (InsightsUrl cityId) = Resolved cityRes →
  ok cityRes = true →
  (recipesByCity st !! cityId = None → inherited cityId = false →
   serve up (DeleteRecipe cityId recipeId) st
     = (replied 404 (ErrorBody "No recipes for this city"), st)) ∧
  (recipesByCity st !! cityId = Some [] →
   serve up (DeleteRecipe cityId recipeId) st
     = (replied 404 (ErrorBody "Recipe not found"), st)) ∧
  (∀ st', serve up (DeleteRecipe cityId recipeId) st = (replied 204 EmptyBody, st') →
          ∃ l, recipesByCity st' !! cityId = Some l).
Proof.
  intros Hup Hok. repeat split.
  - intros Hnone Hplain. rewrite serve_delete_recipe, Hup, Hok. cbn [negb].
    unfold lookup_city. by rewrite Hnone, Hplain.
  - intros Hempty. by eapply serve_delete_not_found.
  - intros st'. rewrite serve_delete_recipe, Hup, Hok. cbn [negb]. unfold replied.
    destruct (lookup_city st cityId) as [|l|key]; try discriminate.
    cbv zeta. destruct (_ =? -1)%Z; [discriminate|].
    intros [= <-]. eexists. cbn. apply lookup_insert_eq.
Qed.

(** X20. A create with valid content for a city identifier that is a member
    of [Object.prototype] passes validation, consumes an identifier and
    fails at [push]: the reply is 500 and nothing is stored. *)
Lemma create_on_prototype_member (up : upstream) (cityId text : string)
    (st : store) (cityRes : response) :
  reachable st →
  inherited cityId = true →
  up (InsightsUrl cityId) = Resolved cityRes →
  ok cityRes = true →
  10 ≤ js_length text ≤ 2000 →
  serve up (PostRecipe cityId (sample_body text)) st
    = (replied 500 (ErrorBody "Internal Server Error"),
       {| recipesByCity := recipesByCity st; nextRecipeId := nextRecipeId st + 1 |}).
Proof.
  intros Hst Hproto Hup Hok [Hmin Hmax].
  assert (Hcontent : get_member (sample_body text) "content" = Normal (Str text))
    by reflexivity.
  assert (Htruthy : truthy (Str text) = true).
  { destruct text; [unfold js_length in Hmin; cbn in Hmin; lia | reflexivity]. }
  rewrite serve_post_recipe, Hcontent, Hup, Hok, Htruthy. cbn [negb orb is_string].
  destruct (Z.ltb_spec (js_length text) 10); [lia|].
  destruct (Z.ltb_spec 2000 (js_length text)); [lia|].
  unfold lookup_city. by rewrite (reachable_plain_keys st cityId Hst Hproto), Hproto.
Qed.

(** C9. For a city identifier that is a member of [Object.prototype], such as
    "constructor", no array is ever stored, and yet a delete is not answered
    404 "No recipes for this city": [recipesByCity[cityId]] is the inherited
    member, which is truthy and has no [findIndex], and the reply is 500
    "Internal Server Error" in every reachable state. *)
Theorem delete_on_prototype_member (up : upstream) (cityId recipeId : string)
    (st : store) (cityRes : response) :
  reachable st →
  inherited cityId = true →
  up (InsightsUrl cityId) = Resolved cityRes →
  ok cityRes = true →
  recipesByCity st !! cityId = None ∧
  serve up (DeleteRecipe cityId recipeId) st
    = (replied 500 (ErrorBody "Internal Server Error"), st).
Proof.
  intros Hst Hproto Hup Hok.
  pose proof (reachable_plain_keys st cityId Hst Hproto) as Hnone.
  split; [exact Hnone|].
  rewrite serve_delete_recipe, Hup, Hok. cbn [negb].
  unfold lookup_city. by rewrite Hnone, Hproto.
Qed.

Lemma delete_on_prototype_member_witness :
  recipesByCity initial_store !! "constructor" = None ∧
  serve sample_upstream (DeleteRecipe "constructor" "1") initial_store
    = (replied 500 (ErrorBody "Internal Server Error"), initial_store).
Proof.
  apply (delete_on_prototype_member sample_upstream "constructor" "1" initial_store
           (mkResponse true (Some sample_insights)));
    [by exists [] | reflexivity | reflexivity | reflexivity].
Defined.

(** ** The scenario and the boundaries of the specification *)

Example specification_scenario :
  (serve_all
     (two_recipes ++
      [ (sample_upstream, DeleteRecipe "42" "1");
        (sample_upstream, DeleteRecipe "42" "1");
        (sample_upstream, DeleteRecipe "7" "1") ])
     initial_store).1
  = [ replied 201 (RecipeBody (Recipe.mk 1 "Bring flour and sugar"));
      replied 201 (RecipeBody (Recipe.mk 2 "Bring butter and eggs"));
      replied 204 EmptyBody;
      replied 404 (ErrorBody "Recipe not found");
      replied 404 (ErrorBody "No recipes for this city") ].
Proof. reflexivity. Qed.

Example content_boundaries :
  map (fun n => (serve sample_upstream (PostRecipe "42" (sample_body (text_of_length n)))
                   initial_store).1)
      [9; 10; 2000; 2001]%nat
  = [ replied 400 (ErrorBody "Content too short (min 10 characters)");
      replied 201 (RecipeBody (Recipe.mk 1 (text_of_length 10)));
      replied 201 (RecipeBody (Recipe.mk 1 (text_of_length 2000)));
      replied 400 (ErrorBody "Content too long (max 2000 characters)") ].
Proof. vm_compute. reflexivity. Qed.

Example content_missing :
  map (fun b => (serve sample_upstream (PostRecipe "42" b) initial_store).1)
      [ Obj []; sample_body ""; Obj [("content", Num 5)]; Null; Undefined ]
  = [ replied 400 (ErrorBody "Content is required");
      replied 400 (ErrorBody "Content is required");
      replied 400 (ErrorBody "Content is required");
      Thrown;
      Thrown ].
Proof. reflexivity. Qed.

(** * Further properties of the handlers *)

#[local] Set Warnings "-clear-no-such-hyp".

(** Case analysis along the branches of each handler. *)
Ltac get_infos_cases up c :=
  rewrite (serve_get_infos up c); unfold replied;
  destruct (up (InsightsUrl c)) as [|?res];
  [|destruct (negb (ok res)) eqn:?Hok;
    [|destruct (json_body res) as [?d|] eqn:?Hjson;
      [destruct (result_of (read_city d)) as [[[? ?] ?]|] eqn:?Hcity;
       [destruct (up (WeatherUrl c)) as [|?wres];
        [|destruct (json_body wres) as [?w|] eqn:?Hwjson;
          [destruct (result_of (read_weather w)) eqn:?Hweather|]]|]|]]].

Ltac post_recipe_cases up c b st :=
  rewrite (serve_post_recipe up c b st); unfold replied;
  destruct (get_member b "content") as [?content|] eqn:?Hcontent;
  [destruct (up (InsightsUrl c)) as [|?res];
   [|destruct (negb (ok res)) eqn:?Hok;
     [|destruct (negb (truthy content) || negb (is_string content)) eqn:?Hvalid;
       [|destruct content as [| | ?flag | ?q | ?text | ?elems | ?props];
         [| | | |destruct (js_length text <? 10)%Z eqn:?Hshort;
                 [|destruct (2000 <? js_length text)%Z eqn:?Hlong;
                   [|destruct (lookup_city st c) as [|?l|?key] eqn:?Hslot]]| |]]]]|].

Ltac delete_recipe_cases up c i st :=
  rewrite (serve_delete_recipe up c i st); unfold replied;
  destruct (up (InsightsUrl c)) as [|?res];
  [|destruct (negb (ok res)) eqn:?Hok;
    [|destruct (lookup_city st c) as [|?l|?key] eqn:?Hslot;
      [|cbv zeta;
        destruct (findIndex (fun r => strict_equal (Recipe.id r) (parseInt i)) l =? -1)%Z
          eqn:?Hindex|]]].

Ltac in_list := repeat first [apply list_elem_of_here | apply list_elem_of_further].

(** ** Which requests are answered by the handler itself *)

Lemma get_member_thrown (v : value) (name : string) :
  get_member v name = Thrown ↔ nullish v = true.
Proof. destruct v; cbn; split; congruence. Qed.

(** X1. An exception leaves a handler in one case only: a create whose
    [request.body] is [undefined] or [null]. *)
Theorem exception_escapes_only_without_body (up : upstream) (r : request) (st : store) :
  (serve up r st).1 = Thrown ↔
  ∃ cityId request_body, r = PostRecipe cityId request_body ∧ nullish request_body = true.
Proof.
  destruct r as [c | c b | c i].
  - split; [|intros (? & ? & [=] & _)]. get_infos_cases up c; discriminate.
  - split.
    + intros H. exists c, b. split; [reflexivity|]. apply (get_member_thrown b "content").
      revert H. post_recipe_cases up c b st; (discriminate || reflexivity).
    + intros (c' & b' & [= <- <-] & Hb). apply (get_member_thrown b "content") in Hb.
      by rewrite serve_post_recipe, Hb.
  - split; [|intros (? & ? & [=] & _)]. delete_recipe_cases up c i st; discriminate.
Qed.

(** X2. The status codes of each endpoint; a reply carries an error message
    exactly when its status is 400 or more. *)
Theorem status_codes_by_endpoint (up : upstream) (r : request) (st st' : store)
    (rep : reply) :
  serve up r st = (Normal rep, st') →
  match r with
  | GetInfos _ => code rep ∈ [200; 404; 500]
  | PostRecipe _ _ => code rep ∈ [201; 400; 404; 500]
  | DeleteRecipe _ _ => code rep ∈ [204; 404; 500]
  end ∧
  (400 ≤ code rep ↔ ∃ message, body rep = ErrorBody message).
Proof.
  assert (Herr : ∀ c msg, 400 ≤ c →
            400 ≤ code (mkReply c (ErrorBody msg)) ↔
            ∃ message, body (mkReply c (ErrorBody msg)) = ErrorBody message).
  { intros c msg Hc. cbn. split; eauto. }
  assert (Hfine : ∀ c b, c < 400 → (∀ msg, b ≠ ErrorBody msg) →
            400 ≤ code (mkReply c b) ↔ ∃ message, body (mkReply c b) = ErrorBody message).
  { intros c b Hc Hb. cbn. split; [lia | intros [msg Hmsg]; by destruct (Hb msg)]. }
  destruct r as [c | c b | c i].
  - get_infos_cases up c; intros [= <- _];
      (split; [in_list | first [by apply Herr | by apply Hfine]]).
  - post_recipe_cases up c b st; try discriminate; intros [= <- _];
      (split; [in_list | first [by apply Herr | by apply Hfine]]).
  - delete_recipe_cases up c i st; intros [= <- _];
      (split; [in_list | first [by apply Herr | by apply Hfine]]).
Qed.

Lemma status_codes_by_endpoint_witness :
  code (mkReply 204 EmptyBody) ∈ [204; 404; 500] ∧
  (400 ≤ code (mkReply 204 EmptyBody) ↔ ∃ message, body (mkReply 204 EmptyBody) = ErrorBody message).
Proof.
  apply (status_codes_by_endpoint sample_upstream (DeleteRecipe "42" "1")
           (serve_all two_recipes initial_store).2
           (updated (serve_all two_recipes initial_store).2 "42"
              [Recipe.mk 2 "Bring butter and eggs"])).
  reflexivity.
Defined.

(** ** What a request can change *)

(** X3. The arrays of recipes change on a 201 and on a 204 only.  A reply 200,
    400 or 404, and an exception that leaves the handler, leave the whole
    store as it was; a reply 500 leaves the arrays as they were, and the
    counter too unless the request is a create. *)
Theorem store_changes_on_success_only (up : upstream) (r : request) (st st' : store)
    (out : completion reply) :
  serve up r st = (out, st') →
  (out = Thrown → st' = st) ∧
  (∀ rep, out = Normal rep → code rep ∈ [200; 400; 404] → st' = st) ∧
  (∀ rep, out = Normal rep → code rep = 500 →
     recipesByCity st' = recipesByCity st ∧
     ((∀ cityId request_body, r ≠ PostRecipe cityId request_body) → st' = st)).
Proof.
  assert (Hcodes : ∀ k : Z, k ∈ [200; 400; 404] → k = 200 ∨ k = 400 ∨ k = 404).
  { intros k Hk. repeat (apply elem_of_cons in Hk as [?|Hk]; [tauto|]).
    by apply elem_of_nil in Hk. }
  destruct r as [c | c b | c i].
  - get_infos_cases up c; intros [= <- <-]; repeat split; done.
  - post_recipe_cases up c b st; intros [= <- <-];
      (split; [try done | split]);
      try (intros rep [= <-] Hcode; try (apply Hcodes in Hcode; cbn in Hcode; lia);
           try discriminate Hcode; try done).
    split; [reflexivity|]. intros Hnot. by destruct (Hnot c b).
  - delete_recipe_cases up c i st; intros [= <- <-];
      (split; [try done | split]);
      try (intros rep [= <-] Hcode; try (apply Hcodes in Hcode; cbn in Hcode; lia);
           try discriminate Hcode; try done).
Qed.

Lemma store_changes_on_success_only_witness :
  (replied 400 (ErrorBody "Content is required") = Thrown → initial_store = initial_store) ∧
  (∀ rep, replied 400 (ErrorBody "Content is required") = Normal rep →
          code rep ∈ [200; 400; 404] → initial_store = initial_store) ∧
  (∀ rep, replied 400 (ErrorBody "Content is required") = Normal rep → code rep = 500 →
     recipesByCity initial_store = recipesByCity initial_store ∧
     ((∀ cityId request_body,
          PostRecipe "42" (sample_body "") ≠ PostRecipe cityId request_body) →
      initial_store = initial_store)).
Proof.
  apply (store_changes_on_success_only sample_upstream (PostRecipe "42" (sample_body ""))
           initial_store initial_store).
  reflexivity.
Defined.

(** X4. A request for one city leaves the arrays of all other cities as they
    were. *)
Theorem other_cities_untouched (up : upstream) (r : request) (st : store) (other : string) :
  other ≠ city_of r →
  recipesByCity (serve up r st).2 !! other = recipesByCity st !! other.
Proof.
  intros Hother. destruct r as [c | c b | c i]; cbn [city_of] in Hother.
  - by rewrite serve_get_infos.
  - post_recipe_cases up c b st; try reflexivity;
      cbn [snd created recipesByCity]; by rewrite lookup_insert_ne.
  - delete_recipe_cases up c i st; try reflexivity;
      cbn [snd updated recipesByCity]; by rewrite lookup_insert_ne.
Qed.

Lemma other_cities_untouched_witness :
  recipesByCity (serve sample_upstream (DeleteRecipe "7" "1")
                   (serve_all two_recipes initial_store).2).2 !! "42"
  = recipesByCity (serve_all two_recipes initial_store).2 !! "42".
Proof.
  apply (other_cities_untouched sample_upstream (DeleteRecipe "7" "1")).
  discriminate.
Defined.

(** ** What the upstream's answers are used for *)

(** X5. When the city lookup fails at the network level, the reply is 500 on
    each endpoint and the store is left as it was. *)
Theorem rejected_lookup_is_internal_error (up : upstream) (r : request) (st : store) :
  first_call (handler r) = Some (InsightsUrl (city_of r)) →
  up (InsightsUrl (city_of r)) = Rejected →
  serve up r st = (replied 500 (ErrorBody "Internal Server Error"), st).
Proof.
  intros Hcall Hup. destruct r as [c | c b | c i]; cbn [city_of] in Hup.
  - by rewrite serve_get_infos, Hup.
  - rewrite serve_post_recipe, Hup. rewrite handler_first_call in Hcall.
    destruct b; try discriminate Hcall; reflexivity.
  - by rewrite serve_delete_recipe, Hup.
Qed.

Lemma rejected_lookup_is_internal_error_witness :
  serve (fun _ => Rejected) (PostRecipe "42" (sample_body "Bring flour and sugar")) initial_store
  = (replied 500 (ErrorBody "Internal Server Error"), initial_store).
Proof.
  apply (rejected_lookup_is_internal_error (fun _ => Rejected)
           (PostRecipe "42" (sample_body "Bring flour and sugar")) initial_store);
    reflexivity.
Defined.

(** X6. A create and a delete use the [ok] flag of the city lookup only: they
    never read its payload, and never call the weather endpoint. *)
Theorem create_and_delete_use_status_only (up up' : upstream) (r : request) (st : store)
    (res res' : response) :
  (∀ cityId, r ≠ GetInfos cityId) →
  up (InsightsUrl (city_of r)) = Resolved res →
  up' (InsightsUrl (city_of r)) = Resolved res' →
  ok res = ok res' →
  serve up r st = serve up' r st.
Proof.
  intros Hr Hup Hup' Hok. destruct r as [c | c b | c i]; cbn [city_of] in Hup, Hup'.
  - by destruct (Hr c).
  - by rewrite !serve_post_recipe, Hup, Hup', Hok.
  - by rewrite !serve_delete_recipe, Hup, Hup', Hok.
Qed.

Lemma create_and_delete_use_status_only_witness :
  serve sample_upstream (DeleteRecipe "42" "1") (serve_all two_recipes initial_store).2
  = serve no_coordinates_upstream (DeleteRecipe "42" "1")
      (serve_all two_recipes initial_store).2.
Proof.
  eapply (create_and_delete_use_status_only sample_upstream no_coordinates_upstream
            (DeleteRecipe "42" "1"));
    [discriminate | reflexivity | reflexivity | reflexivity].
Defined.

(** X7. [GET] never looks at the status of the weather response, only at its
    body: a weather answer with a failure status and a JSON body is read
    like any other. *)
Theorem weather_status_is_ignored (up up' : upstream) (cityId : string) (st : store)
    (weatherRes weatherRes' : response) :
  up (InsightsUrl cityId) = up' (InsightsUrl cityId) →
  up (WeatherUrl cityId) = Resolved weatherRes →
  up' (WeatherUrl cityId) = Resolved weatherRes' →
  json_body weatherRes = json_body weatherRes' →
  serve up (GetInfos cityId) st = serve up' (GetInfos cityId) st.
Proof.
  intros Hcity Hw Hw' Hbody. by rewrite !serve_get_infos, Hcity, Hw, Hw', Hbody.
Qed.

Lemma weather_status_is_ignored_witness :
  serve sample_upstream (GetInfos "42") initial_store
  = serve failing_weather_upstream (GetInfos "42") initial_store.
Proof.
  eapply (weather_status_is_ignored sample_upstream failing_weather_upstream "42");
    reflexivity.
Defined.

(** ** What the store holds *)

Lemma valid_store_serve (up : upstream) (r : request) (st : store) :
  valid_store st → valid_store (serve up r st).2.
Proof.
  intros [Hnext Hstored].
  assert (Hbump : valid_store {| recipesByCity := recipesByCity st;
                                 nextRecipeId := nextRecipeId st + 1 |}).
  { split; cbn; [lia | exact Hstored]. }
  assert (Hcreated : ∀ c l text,
            (js_length text <? 10) = false → (2000 <? js_length text) = false →
            (∀ r, r ∈ l → 1 ≤ Recipe.id r ∧ 10 ≤ js_length (Recipe.content r) ≤ 2000) →
            valid_store (created st c l text)).
  { intros c l text Hshort%Z.ltb_ge Hlong%Z.ltb_ge Hl. split; cbn; [lia|].
    intros c' l' r' Hc' Hr'. destruct (decide (c = c')) as [<-|Hne].
    - rewrite lookup_insert_eq in Hc'. injection Hc' as <-.
      apply elem_of_app in Hr' as [Hr' | ->%list_elem_of_singleton]; [by apply Hl|].
      cbn. lia.
    - rewrite lookup_insert_ne in Hc' by done. eauto. }
  destruct r as [c | c b | c i].
  - rewrite serve_get_infos. by split.
  - post_recipe_cases up c b st; cbn [snd]; try (by split); try exact Hbump.
    + apply Hcreated; [done | done |]. by intros r Hr%elem_of_nil.
    + apply Hcreated; [done | done |]. apply lookup_city_recipes in Hslot. eauto.
  - delete_recipe_cases up c i st; cbn [snd]; try (by split).
    split; cbn; [exact Hnext|]. apply lookup_city_recipes in Hslot.
    intros c' l' r' Hc' Hr'. destruct (decide (c = c')) as [<-|Hne].
    + rewrite lookup_insert_eq in Hc'. injection Hc' as <-.
      rewrite splice_delete in Hr'. eauto using list_elem_of_delete_inv.
    + rewrite lookup_insert_ne in Hc' by done. eauto.
Qed.

Lemma valid_store_serve_all (reqs : list (upstream * request)) (st : store) :
  valid_store st → valid_store (serve_all reqs st).2.
Proof.
  revert st. induction reqs as [|[up r] rest IH]; intros st Hst; [exact Hst|].
  rewrite serve_all_cons. cbn [snd]. by apply IH, valid_store_serve.
Qed.

(** X8. In every reachable state every stored recipe has an identifier from 1
    up to the counter, excluded, and a content of 10 to 2000 code units:
    nothing enters the store without passing validation. *)
Theorem stored_recipes_are_valid (st : store) (c : string) (l : list Recipe) (r : Recipe) :
  reachable st →
  recipesByCity st !! c = Some l → r ∈ l →
  1 ≤ Recipe.id r < nextRecipeId st ∧ 10 ≤ js_length (Recipe.content r) ≤ 2000.
Proof.
  intros Hst Hc Hr.
  pose proof (ids_below st (reachable_consistent st Hst) c l r Hc Hr) as Hbelow.
  destruct Hst as [reqs <-].
  destruct (valid_store_serve_all reqs initial_store) as [_ Hstored].
  { split; cbn; [lia|]. intros c' l' r'. by rewrite lookup_empty. }
  destruct (Hstored c l r Hc Hr). lia.
Qed.

Lemma stored_recipes_are_valid_witness :
  1 ≤ Recipe.id (Recipe.mk 2 "Bring butter and eggs")
    < nextRecipeId (serve_all two_recipes initial_store).2 ∧
  10 ≤ js_length (Recipe.content (Recipe.mk 2 "Bring butter and eggs")) ≤ 2000.
Proof.
  apply (stored_recipes_are_valid (serve_all two_recipes initial_store).2 "42"
           [Recipe.mk 1 "Bring flour and sugar"; Recipe.mk 2 "Bring butter and eggs"]).
  - by exists two_recipes.
  - reflexivity.
  - apply list_elem_of_further, list_elem_of_here.
Defined.

(** X9. Once a city has an array of recipes it keeps one, whatever is served
    afterwards: a delete empties the array at most, it never removes it. *)
Theorem city_arrays_persist (reqs : list (upstream * request)) (st : store) (c : string) :
  is_Some (recipesByCity st !! c) →
  is_Some (recipesByCity (serve_all reqs st).2 !! c).
Proof.
  revert st. induction reqs as [|[up r] rest IH]; intros st Hc; [exact Hc|].
  rewrite serve_all_cons. cbn [snd]. apply IH.
  destruct (serve_effect up r st) as [| | c' text Hc' _ | c' l text Hc' | c' l i Hc'];
    cbn [recipesByCity created updated]; try assumption;
    (destruct (decide (c' = c)) as [->|Hne];
     [rewrite lookup_insert_eq; eauto | by rewrite lookup_insert_ne]).
Qed.

Lemma city_arrays_persist_witness :
  is_Some (recipesByCity
             (serve_all [ (sample_upstream, DeleteRecipe "42" "1");
                          (sample_upstream, DeleteRecipe "42" "2") ]
                (serve_all two_recipes initial_store).2).2 !! "42").
Proof.
  apply (city_arrays_persist _ (serve_all two_recipes initial_store).2 "42").
  by eexists.
Defined.

(** ** Creating, listing and deleting *)

(** X10. A successful create stores the submitted text as it is, at the end of
    the city's array, and replies with the stored recipe; a [GET] of the
    city then lists the former recipes in their order, followed by the new
    one. *)
Theorem created_recipe_is_listed_last (up : upstream) (cityId : string)
    (request_body : value) (st st' : store) (rep : reply) :
  serve up (PostRecipe cityId request_body) st = (Normal rep, st') →
  code rep = 201 →
  ∃ text,
    get_member request_body "content" = Normal (Str text) ∧
    body rep = RecipeBody (Recipe.mk (nextRecipeId st) text) ∧
    recipesByCity st' !! cityId
      = Some (default [] (recipesByCity st !! cityId) ++ [Recipe.mk (nextRecipeId st) text]) ∧
    (∀ up' rep' st'' info,
        serve up' (GetInfos cityId) st' = (Normal rep', st'') →
        body rep' = InfoBody info →
        recipes info
          = Recipes (default [] (recipesByCity st !! cityId)
                     ++ [Recipe.mk (nextRecipeId st) text])).
Proof.
  revert st' rep. post_recipe_cases up cityId request_body st;
    intros st' rep [= <- <-] Hcode; try discriminate Hcode.
  - apply lookup_city_absent in Hslot as [Hnone _].
    exists text. rewrite Hnone. split; [reflexivity|]. split; [reflexivity|].
    assert (Hnew : recipesByCity (created st cityId [] text) !! cityId
                   = Some ([] ++ [Recipe.mk (nextRecipeId st) text]))
      by apply lookup_insert_eq.
    split; [exact Hnew|].
    intros up' rep' st'' info Hget Hbody.
    rewrite (get_infos_recipes _ _ _ _ _ _ Hget Hbody).
    apply lookup_city_recipes in Hnew. by rewrite Hnew.
  - apply lookup_city_recipes in Hslot.
    exists text. rewrite Hslot. split; [reflexivity|]. split; [reflexivity|].
    assert (Hnew : recipesByCity (created st cityId l text) !! cityId
                   = Some (l ++ [Recipe.mk (nextRecipeId st) text]))
      by apply lookup_insert_eq.
    split; [exact Hnew|].
    intros up' rep' st'' info Hget Hbody.
    rewrite (get_infos_recipes _ _ _ _ _ _ Hget Hbody).
    apply lookup_city_recipes in Hnew. by rewrite Hnew.
Qed.

Lemma created_recipe_is_listed_last_witness :
  ∃ text,
    get_member (sample_body "Bring butter and eggs") "content" = Normal (Str text) ∧
    body (mkReply 201 (RecipeBody (Recipe.mk 2 "Bring butter and eggs")))
      = RecipeBody (Recipe.mk 2 text) ∧
    recipesByCity (serve_all two_recipes initial_store).2 !! "42"
      = Some ([Recipe.mk 1 "Bring flour and sugar"] ++ [Recipe.mk 2 text]).
Proof.
  destruct (created_recipe_is_listed_last sample_upstream "42"
              (sample_body "Bring butter and eggs")
              (created initial_store "42" [] "Bring flour and sugar")
              (serve_all two_recipes initial_store).2
              (mkReply 201 (RecipeBody (Recipe.mk 2 "Bring butter and eggs"))))
    as (text & Hcontent & Hbody & Hstored & _); [reflexivity | reflexivity |].
  exists text. split; [exact Hcontent|]. split; [exact Hbody|]. exact Hstored.
Defined.

(** X11. A delete is answered 204 only when [parseInt] reads an integer out of
    the recipe identifier and the city's array holds a recipe with that
    identifier; the first such recipe is the one removed, and the array
    loses exactly one element. *)
Theorem delete_succeeds_on_stored_identifier_only (up : upstream)
    (cityId recipeId : string) (st st' : store) (rep : reply) :
  serve up (DeleteRecipe cityId recipeId) st = (Normal rep, st') →
  code rep = 204 →
  ∃ n before r after,
    parseInt recipeId = Some n ∧
    recipesByCity st !! cityId = Some (before ++ r :: after) ∧
    Recipe.id r = n ∧
    (∀ x, x ∈ before → Recipe.id x ≠ n) ∧
    st' = updated st cityId (before ++ after) ∧
    length (before ++ r :: after) = S (length (before ++ after)).
Proof.
  revert st' rep. delete_recipe_cases up cityId recipeId st;
    intros st' rep [= <- <-] Hcode; try discriminate Hcode.
  apply lookup_city_recipes in Hslot. apply Z.eqb_neq in Hindex.
  destruct (first_match (fun y => strict_equal (Recipe.id y) (parseInt recipeId)) l)
    as [Hnone | (before & r & after & -> & Hbefore & Hr)].
  { destruct Hindex. by apply findIndex_from_none. }
  destruct (parseInt recipeId) as [n|] eqn:Hparse; [|discriminate Hr].
  exists n, before, r, after. split; [reflexivity|]. split; [exact Hslot|].
  split; [by apply Z.eqb_eq|]. split.
  { intros x Hx. rewrite Forall_forall in Hbefore. by apply strict_equal_false, Hbefore. }
  split.
  - unfold findIndex. rewrite findIndex_from_found by done.
    by rewrite Z.add_0_l, splice_middle.
  - rewrite !length_app. cbn. lia.
Qed.

Lemma delete_succeeds_on_stored_identifier_only_witness :
  ∃ n before r after,
    parseInt "2" = Some n ∧
    recipesByCity (serve_all two_recipes initial_store).2 !! "42"
      = Some (before ++ r :: after) ∧
    Recipe.id r = n ∧
    (∀ x, x ∈ before → Recipe.id x ≠ n) ∧
    updated (serve_all two_recipes initial_store).2 "42" [Recipe.mk 1 "Bring flour and sugar"]
      = updated (serve_all two_recipes initial_store).2 "42" (before ++ after) ∧
    length (before ++ r :: after) = S (length (before ++ after)).
Proof.
  apply (delete_succeeds_on_stored_identifier_only sample_upstream "42" "2"
           (serve_all two_recipes initial_store).2 _ (mkReply 204 EmptyBody));
    reflexivity.
Defined.

(** ** Recipe identifiers as text *)

Lemma parse_digits_app_stop (radix : Z) (s : string) (c : ascii) (rest : string)
    (acc : option Z) :
  digit_value radix c = None →
  parse_digits radix (s ++ String c rest)%string acc = parse_digits radix s acc.
Proof.
  intros Hc. revert acc. induction s as [|a s IH]; intros acc.
  - change (parse_digits radix (String c rest) acc = acc).
    cbn [parse_digits]. by rewrite Hc.
  - change (parse_digits radix (String a (s +:+ String c rest)) acc
            = parse_digits radix (String a s) acc).
    cbn [parse_digits]. destruct (digit_value radix a); [apply IH | reflexivity].
Qed.

Ltac eval_digit :=
  cbn [parse_digits];
  match goal with
  | |- context [digit_value ?radix ?c] =>
      let v := eval vm_compute in (digit_value radix c) in
      change (digit_value radix c) with v
  end;
  cbv beta iota; cbv [default from_option id].

Lemma parse_digits_uint_acc (d : Decimal.uint) (p : positive) :
  parse_digits 10 (NilEmpty.string_of_uint d) (Some (Z.pos p))
  = Some (Z.pos (Pos.of_uint_acc d p)).
Proof.
  revert p. induction d; intros p; cbn [NilEmpty.string_of_uint Pos.of_uint_acc];
    [reflexivity | ..];
    (eval_digit; rewrite <- IHd; do 2 f_equal; lia).
Qed.

Lemma parse_digits_uint_zero (d : Decimal.uint) :
  parse_digits 10 (NilEmpty.string_of_uint d) (Some 0) = Some (Z.of_N (Pos.of_uint d)).
Proof.
  induction d; cbn [NilEmpty.string_of_uint Pos.of_uint]; [reflexivity | exact IHd | ..];
    (eval_digit; apply parse_digits_uint_acc).
Qed.

(** [parseInt] on a text that starts with neither white space, nor a sign,
    nor the prefix of a hexadecimal numeral, reads decimal digits. *)
Lemma parseInt_plain (a : ascii) (s : string) :
  is_white_space a = false → a ≠ "-"%char → a ≠ "+"%char →
  (a = "0"%char → match s with
                  | String b _ => b ≠ "x"%char ∧ b ≠ "X"%char
                  | EmptyString => True
                  end) →
  parseInt (String a s) = parse_digits 10 (String a s) None.
Proof.
  intros Hws Hminus Hplus Hhex. unfold parseInt. cbn [trim_start]. rewrite Hws.
  assert (Hsign : ∀ n : option Z,
            match n with Some k => Some (1 * k) | None => None end = n).
  { intros [k|]; [f_equal; lia | reflexivity]. }
  destruct a as [[] [] [] [] [] [] [] []];
    try (by destruct Hminus); try (by destruct Hplus); try apply Hsign.
  specialize (Hhex eq_refl). destruct s as [|b s]; [apply Hsign|].
  destruct Hhex as [Hx HX].
  destruct b as [[] [] [] [] [] [] [] []];
    try (by destruct Hx); try (by destruct HX); apply Hsign.
Qed.

Lemma parseInt_numeral (d : Decimal.uint) (suffix : string) :
  d ≠ Decimal.Nil → ends_numeral suffix →
  parseInt (NilEmpty.string_of_uint d +:+ suffix) = Some (Z.of_N (N.of_uint d)).
Proof.
  intros Hd Hsuffix.
  assert (Hdigits : ∀ d' acc,
            parse_digits 10 (NilEmpty.string_of_uint d' +:+ suffix) acc
            = parse_digits 10 (NilEmpty.string_of_uint d') acc).
  { intros d' acc. destruct suffix as [|c rest].
    - f_equal. induction (NilEmpty.string_of_uint d') as [|a s IH]; [reflexivity|].
      change (String a (s +:+ "") = String a s). by rewrite IH.
    - destruct Hsuffix as [Hc _]. by apply parse_digits_app_stop. }
  assert (Hsecond : ∀ d', match NilEmpty.string_of_uint d' +:+ suffix with
                          | String b _ => b ≠ "x"%char ∧ b ≠ "X"%char
                          | EmptyString => True
                          end).
  { intros [| | | | | | | | | |]; try (split; discriminate).
    destruct suffix as [|c rest]; [exact I|]. destruct Hsuffix as (_ & Hx & HX).
    by split. }
  unfold N.of_uint.
  destruct d as [|d|d|d|d|d|d|d|d|d|d]; [by destruct Hd|..];
    (match goal with
     | |- parseInt (NilEmpty.string_of_uint (?D d) +:+ suffix) = _ =>
         let s := eval cbv in (NilEmpty.string_of_uint (D Decimal.Nil)) in
         match s with
         | String ?a _ =>
             change (NilEmpty.string_of_uint (D d) +:+ suffix)
               with (String a (NilEmpty.string_of_uint d +:+ suffix));
             rewrite (parseInt_plain a);
             [|reflexivity | discriminate | discriminate
              |first [intros _; apply Hsecond | discriminate]];
             change (String a (NilEmpty.string_of_uint d +:+ suffix))
               with (NilEmpty.string_of_uint (D d) +:+ suffix)
         end
     end;
     rewrite Hdigits; cbn [NilEmpty.string_of_uint Pos.of_uint]; eval_digit;
     first [apply parse_digits_uint_zero | apply parse_digits_uint_acc]).
Qed.



(** A delete depends on the recipe identifier through [parseInt] only. *)
Lemma delete_depends_on_parseInt (up : upstream) (cityId recipeId recipeId' : string)
    (st : store) :
  parseInt recipeId = parseInt recipeId' →
  serve up (DeleteRecipe cityId recipeId) st = serve up (DeleteRecipe cityId recipeId') st.
Proof. intros Hparse. by rewrite !serve_delete_recipe, Hparse. Qed.

(** X13. Every stored recipe can be deleted through its identifier written in
    decimal, even when other characters follow the numeral: the reply is
    204 and that recipe, no other, leaves the array. *)
Theorem delete_by_identifier_text (up : upstream) (cityId suffix : string) (st : store)
    (cityRes : response) (l : list Recipe) (r : Recipe) :
  reachable st →
  up (InsightsUrl cityId) = Resolved cityRes → ok cityRes = true →
  recipesByCity st !! cityId = Some l → r ∈ l →
  ends_numeral suffix →
  ∃ before after,
    l = before ++ r :: after ∧
    serve up (DeleteRecipe cityId (decimal (Recipe.id r) +:+ suffix)) st
      = (replied 204 EmptyBody, updated st cityId (before ++ after)).
Proof.
  intros Hst Hup Hok Hl Hr Hsuffix.
  assert (Hid : 1 ≤ Recipe.id r).
  { destruct Hst as [reqs <-].
    destruct (valid_store_serve_all reqs initial_store) as [_ Hstored].
    { split; cbn; [lia|]. intros c' l' r'. by rewrite lookup_empty. }
    by destruct (Hstored cityId l r Hl Hr). }
  assert (Hparse : parseInt (decimal (Recipe.id r) +:+ suffix) = Some (Recipe.id r)).
  { unfold decimal. rewrite parseInt_numeral; [| |exact Hsuffix].
    - rewrite DecimalN.Unsigned.of_to, Z2N.id; [reflexivity | lia].
    - destruct (Z.to_N (Recipe.id r)) as [|p] eqn:Hp; [lia|].
      apply DecimalPos.Unsigned.to_uint_nonnil. }
  pose proof (ids_distinct st (reachable_consistent st Hst) cityId l Hl) as Hnodup.
  destruct (first_match (fun y => strict_equal (Recipe.id y) (Some (Recipe.id r))) l)
    as [Hnone | (before & r' & after & -> & Hbefore & Hr')].
  { exfalso. rewrite Forall_forall in Hnone. specialize (Hnone r Hr).
    by apply strict_equal_false in Hnone. }
  assert (Hsame : Recipe.id r' = Recipe.id r) by (cbn in Hr'; by apply Z.eqb_eq).
  rewrite fmap_app, fmap_cons in Hnodup.
  apply NoDup_app in Hnodup as (_ & Hcross & [Hnotin _]%NoDup_cons).
  assert (r = r') as <-.
  { apply elem_of_app in Hr as [Hr | Hr].
    - exfalso. apply (Hcross (Recipe.id r)); [by apply list_elem_of_fmap_2|].
      rewrite Hsame. apply list_elem_of_here.
    - apply elem_of_cons in Hr as [-> | Hr]; [reflexivity|].
      exfalso. apply Hnotin. rewrite Hsame. by apply list_elem_of_fmap_2. }
  exists before, after. split; [reflexivity|].
  by eapply serve_delete_found.
Qed.

Lemma delete_by_identifier_text_witness :
  ∃ before after,
    [Recipe.mk 1 "Bring flour and sugar"; Recipe.mk 2 "Bring butter and eggs"]
      = before ++ Recipe.mk 2 "Bring butter and eggs" :: after ∧
    serve sample_upstream
      (DeleteRecipe "42" (decimal (Recipe.id (Recipe.mk 2 "Bring butter and eggs")) +:+ "abc"))
      (serve_all two_recipes initial_store).2
    = (replied 204 EmptyBody,
       updated (serve_all two_recipes initial_store).2 "42" (before ++ after)).
Proof.
  apply (delete_by_identifier_text sample_upstream "42" "abc"
           (serve_all two_recipes initial_store).2 (mkResponse true (Some sample_insights))).
  - by exists two_recipes.
  - reflexivity.
  - reflexivity.
  - reflexivity.
  - apply list_elem_of_further, list_elem_of_here.
  - by repeat split.
Defined.

(** ** When a snapshot is returned *)

Lemma result_of_pure {A : Type} (m : async A) (a : A) :
  pure m → (result_of m = Normal a ↔ m = Return a).
Proof. destruct m; cbn; intros Hm; try contradiction; split; congruence. Qed.

Lemma read_weather_result (weatherData : value) :
  (∃ forecast, result_of (read_weather weatherData) = Normal forecast) ↔
  nullish weatherData = false.
Proof.
  split.
  - intros [forecast Hread]. by destruct weatherData.
  - intros Hw. destruct (read_weather_defined weatherData Hw) as (? & ? & ? & _ & _ & _ & ->).
    by eexists.
Qed.

(** X14. The three outcomes of [GET /cities/:cityId/infos]: 404 exactly when the
    city lookup is answered with a non-success status; 200 exactly when the
    lookup succeeds, lines 79-82 read the insight payload without throwing,
    and the weather call answers with a JSON document other than [null];
    500 in every other case.  The handler always replies. *)
Theorem get_infos_outcomes (up : upstream) (cityId : string) (st : store) :
  ∃ rep,
    serve up (GetInfos cityId) st = (Normal rep, st) ∧
    code rep ∈ [200; 404; 500] ∧
    (code rep = 404 ↔
     ∃ cityRes, up (InsightsUrl cityId) = Resolved cityRes ∧ ok cityRes = false) ∧
    (code rep = 200 ↔
     ∃ cityRes cityData city weatherRes weatherData,
       up (InsightsUrl cityId) = Resolved cityRes ∧ ok cityRes = true ∧
       json_body cityRes = Some cityData ∧ read_city cityData = Return city ∧
       up (WeatherUrl cityId) = Resolved weatherRes ∧
       json_body weatherRes = Some weatherData ∧ nullish weatherData = false).
Proof.
  get_infos_cases up cityId; eexists; (split; [reflexivity|]); (split; [in_list|]);
    cbn [code]; try rewrite ?negb_true_iff, ?negb_false_iff in Hok;
    try match goal with
        | H : result_of (read_city ?d) = Normal _ |- _ =>
            apply (result_of_pure _ _ (read_city_pure d)) in H
        | H : result_of (read_city ?d) = Thrown |- _ =>
            assert (∀ city, read_city d ≠ Return city)
              by (intros city Hreturn; rewrite Hreturn in H; discriminate);
            clear H
        end;
    try match goal with
        | H : result_of (read_weather ?w) = Normal _ |- _ =>
            assert (nullish w = false) by (apply read_weather_result; eauto); clear H
        | H : result_of (read_weather ?w) = Thrown |- _ =>
            assert (nullish w = true)
              by (destruct (nullish w) eqn:Hw; [reflexivity|];
                  apply read_weather_result in Hw as [forecast Hw]; congruence);
            clear H
        end;
    (split;
     (split;
      [intros Hcode; try discriminate Hcode; try (by repeat eexists; eauto)
      |intros Hex; try reflexivity;
       exfalso;
       repeat match goal with
              | H : ∃ _, _ |- _ => destruct H
              | H : _ ∧ _ |- _ => destruct H
              end;
       simplify_eq;
       try congruence;
       try match goal with H : ∀ city, read_city _ ≠ Return city |- _ => by eapply H end])).
Qed.

(** ** Reading the insight payload *)

Lemma map_completion_members (name : string) (facts : list value) :
  Forall (fun fact => nullish fact = false) facts →
  map_completion (fun k => get_member k name) facts
  = Normal ((fun k => get_member_opt k name) <$> facts).
Proof.
  induction 1 as [|fact facts Hfact _ IH]; [reflexivity|].
  cbn [map_completion fmap list_fmap]. rewrite IH. unfold get_member_opt.
  destruct (get_member fact name) eqn:Hget; [reflexivity|].
  apply get_member_thrown in Hget. congruence.
Qed.

Lemma map_completion_null (name : string) (facts : list value) :
  Exists (fun fact => nullish fact = true) facts →
  map_completion (fun k => get_member k name) facts = Thrown.
Proof.
  induction 1 as [fact facts Hfact | fact facts _ IH]; cbn [map_completion].
  - apply (get_member_thrown fact name) in Hfact. by rewrite Hfact.
  - rewrite IH. by destruct (get_member fact name).
Qed.

(** X15. What lines 79-82 make of an insight payload that is an object with a
    non-empty list of coordinates and a list of facts: the latitude and
    longitude of the first coordinate only, the population as it is, and
    the [content] of each fact in order, [undefined] for a fact without
    one.  A single [null] among the facts makes the whole request fail. *)
Theorem insight_payload_reading (fields : list (string * value))
    (first : value) (others facts : list value) :
  own_property "coordinates" fields = Some (Arr (first :: others)) →
  nullish first = false →
  own_property "knownFor" fields = Some (Arr facts) →
  (Forall (fun fact => nullish fact = false) facts →
   read_city (Obj fields)
   = Return ([get_member_opt first "latitude"; get_member_opt first "longitude"],
             default Undefined (own_property "population" fields),
             (fun fact => get_member_opt fact "content") <$> facts)) ∧
  (Exists (fun fact => nullish fact = true) facts → read_city (Obj fields) = Throw).
Proof.
  intros Hcoordinates Hfirst Hfacts.
  assert (Hlat : ∀ name, get_member first name = Normal (get_member_opt first name)).
  { intros name. unfold get_member_opt. destruct (get_member first name) eqn:Hget;
      [reflexivity|]. apply get_member_thrown in Hget. congruence. }
  split; intros Hall; unfold read_city; cbn [get_member]; rewrite Hcoordinates, Hfacts;
    cbn [default from_option id lift mbind async_mbind async_bind get_index lookup list_lookup];
    rewrite !Hlat; cbn [lift async_bind array_map].
  - by rewrite map_completion_members.
  - by rewrite map_completion_null.
Qed.

Lemma insight_payload_reading_witness :
  (Forall (fun fact => nullish fact = false) [Obj [("content", Str "Cuisine")]; Obj []] →
   read_city (Obj [ ("coordinates", Arr [Obj [("latitude", Num 1); ("longitude", Num 2)];
                                         Obj [("latitude", Num 3)]]);
                    ("population", Num 5);
                    ("knownFor", Arr [Obj [("content", Str "Cuisine")]; Obj []]) ])
   = Return ([get_member_opt (Obj [("latitude", Num 1); ("longitude", Num 2)]) "latitude";
              get_member_opt (Obj [("latitude", Num 1); ("longitude", Num 2)]) "longitude"],
             default Undefined (own_property "population"
               [ ("coordinates", Arr [Obj [("latitude", Num 1); ("longitude", Num 2)];
                                      Obj [("latitude", Num 3)]]);
                 ("population", Num 5);
                 ("knownFor", Arr [Obj [("content", Str "Cuisine")]; Obj []]) ]),
             (fun fact => get_member_opt fact "content")
               <$> [Obj [("content", Str "Cuisine")]; Obj []])) ∧
  (Exists (fun fact => nullish fact = true) [Obj [("content", Str "Cuisine")]; Obj []] →
   read_city (Obj [ ("coordinates", Arr [Obj [("latitude", Num 1); ("longitude", Num 2)];
                                         Obj [("latitude", Num 3)]]);
                    ("population", Num 5);
                    ("knownFor", Arr [Obj [("content", Str "Cuisine")]; Obj []]) ])
   = Throw).
Proof.
  apply (insight_payload_reading _ (Obj [("latitude", Num 1); ("longitude", Num 2)])
           [Obj [("latitude", Num 3)]]); reflexivity.
Defined.

(** ** Start-up *)



(** ** What [GET] lists *)

(** X21. In a reachable state a snapshot lists the very array stored for the
    city, the empty array for a city without one; for a city identifier that
    is a member of [Object.prototype] it hands over that member instead of
    an array. *)
Theorem get_infos_lists_the_stored_array (up : upstream) (cityId : string)
    (st st' : store) (rep : reply) (info : city_info) :
  reachable st →
  serve up (GetInfos cityId) st = (Normal rep, st') →
  body rep = InfoBody info →
  recipes info = if inherited cityId then Inherited cityId
                 else Recipes (default [] (recipesByCity st !! cityId)).
Proof.
  intros Hst Hserve Hbody. rewrite (get_infos_recipes _ _ _ _ _ _ Hserve Hbody).
  unfold lookup_city. destruct (inherited cityId) eqn:Hproto.
  - by rewrite (reachable_plain_keys st cityId Hst Hproto).
  - by destruct (recipesByCity st !! cityId).
Qed.

Lemma get_infos_lists_the_stored_array_witness :
  recipes (mkInfo [Num (4885 # 100); Num (235 # 100)] (Num 2148000) [Str "Cuisine"]
             [Forecast.mk "today" (Num 12) (Num 21); Forecast.mk "tomorrow" (Num 9) (Num 0)]
             (Inherited "constructor"))
  = if inherited "constructor" then Inherited "constructor"
    else Recipes (default [] (recipesByCity initial_store !! "constructor")).
Proof.
  eapply (get_infos_lists_the_stored_array sample_upstream "constructor" initial_store);
    [by exists [] | reflexivity | reflexivity].
Defined.

(** ** Witnesses of the lemmas on validation and on the two kinds of 404 *)

Lemma content_validation_order_witness :
  serve sample_upstream (PostRecipe "42" (sample_body "Too short")) initial_store
    = (replied 400 (ErrorBody "Content too short (min 10 characters)"), initial_store) ∧
  serve sample_upstream (PostRecipe "42" (sample_body (text_of_length 10))) initial_store
    = (replied 201 (RecipeBody (Recipe.mk (nextRecipeId initial_store) (text_of_length 10))),
       created initial_store "42" (default [] (recipesByCity initial_store !! "42"))
         (text_of_length 10)).
Proof.
  split.
  - destruct (content_validation_order sample_upstream "42" (sample_body "Too short")
                (Str "Too short") initial_store (mkResponse true (Some sample_insights))
                eq_refl eq_refl eq_refl) as (_ & Hshort & _).
    apply (Hshort "Too short"); [reflexivity | by vm_compute].
  - destruct (content_validation_order sample_upstream "42" (sample_body (text_of_length 10))
                (Str (text_of_length 10)) initial_store
                (mkResponse true (Some sample_insights))
                eq_refl eq_refl eq_refl) as (_ & _ & _ & Hcreated).
    apply (Hcreated (text_of_length 10)); [reflexivity | by vm_compute | reflexivity].
Defined.

Lemma delete_absent_versus_empty_witness :
  serve sample_upstream (DeleteRecipe "7" "1") initial_store
    = (replied 404 (ErrorBody "No recipes for this city"), initial_store).
Proof.
  destruct (delete_absent_versus_empty sample_upstream "7" "1" initial_store
              (mkResponse true (Some sample_insights)) eq_refl eq_refl) as (Habsent & _).
  apply Habsent; reflexivity.
Defined.

Lemma create_on_prototype_member_witness :
  serve sample_upstream (PostRecipe "constructor" (sample_body "Bring flour and sugar"))
        initial_store
  = (replied 500 (ErrorBody "Internal Server Error"),
     {| recipesByCity := recipesByCity initial_store;
        nextRecipeId := nextRecipeId initial_store + 1 |}).
Proof.
  apply (create_on_prototype_member sample_upstream "constructor" "Bring flour and sugar"
           initial_store (mkResponse true (Some sample_insights)));
    [by exists [] | reflexivity | reflexivity | reflexivity | by vm_compute].
Defined.
